(** * Endpoints and the datagram socket (util/sock.h) and the client
      cursor and replica pair (client/dbclient.h) of the database driver,
      as Rocq definitions.

    Integers of the C++ source are values of [Z]; a [char] array or a C
    string is a [string] whose characters are the bytes in memory order.
    The source compares the loopback address with the constant [0x100007f],
    which fixes a little-endian host; [htons], [htonl] and [inet_addr] are
    written for that host. *)

From Stdlib Require Import ZArith Bool List Ascii String Lia.
From Stdlib Require Import Decimal DecimalString DecimalN.
Import ListNotations.
Local Open Scope string_scope.
Local Open Scope list_scope.
Local Open Scope Z_scope.

(** ** The C library functions the two headers call *)
Module Libc.

(** A [char] read as [unsigned char], the way [strcmp] compares. *)
Definition uchar (c : ascii) : Z := Z.of_N (N_of_ascii c).

Definition NUL : ascii := Ascii.zero.

(** Whether a character array holds a NUL, that is, a terminated C
    string. *)
Fixpoint has_NUL (s : string) : bool :=
  match s with
  | EmptyString => false
  | String c r => Ascii.eqb c NUL || has_NUL r
  end.

Definition terminated (s : string) : Prop := has_NUL s = true.

(** The C string held by a character array: the bytes before the first
    NUL.  This is what the program reads from a [terminated] array.
    From an array without a NUL the program reads on past its end, into
    whatever memory follows (in a [SockAddr], the bytes after
    [su.sun_path]), which C leaves undefined: there [c_str] stops at the
    end of the array and says nothing of the program, and the statements
    below about the string that is read take the array terminated. *)
Fixpoint c_str (s : string) : string :=
  match s with
  | EmptyString => EmptyString
  | String c r => if Ascii.eqb c NUL then EmptyString else String c (c_str r)
  end.

Definition strlen (s : string) : nat := String.length (c_str s).

(** [strcmp]: bytes are compared as unsigned values, up to and including
    the first NUL.  The comparison stops at the first difference, so it
    stays inside both arrays as soon as one of them is [terminated];
    only on two arrays without a NUL that agree on all their bytes would
    the program read past them, where this function takes the end of
    the array for the terminator. *)
Fixpoint strcmp (s1 s2 : string) : Z :=
  match s1, s2 with
  | EmptyString, EmptyString => 0
  | EmptyString, String c2 _ => - uchar c2
  | String c1 _, EmptyString => uchar c1
  | String c1 r1, String c2 r2 =>
      if Ascii.eqb c1 c2
      then if Ascii.eqb c1 NUL then 0 else strcmp r1 r2
      else uchar c1 - uchar c2
  end.

(** [strncpy(dst, src, n)] seen as the new contents of the [n] bytes of
    [dst]: the bytes of [src] up to its terminator, at most [n] of them,
    then NULs up to [n].  No terminator is written when [src] holds [n]
    or more bytes. *)
Fixpoint strncpy (src : string) (n : nat) : string :=
  match n with
  | O => EmptyString
  | S n' =>
      match src with
      | EmptyString => String NUL (strncpy EmptyString n')
      | String c r =>
          if Ascii.eqb c NUL then String NUL (strncpy EmptyString n')
          else String c (strncpy r n')
      end
  end.

(** Byte swaps of a little-endian host.  The argument is cut to the
    width of the parameter type ([uint16_t], [uint32_t]) by the masks. *)
Definition htons (x : Z) : Z :=
  Z.lor (Z.shiftl (Z.land x 255) 8) (Z.land (Z.shiftr x 8) 255).

Definition ntohs (x : Z) : Z := htons x.

Definition htonl (x : Z) : Z :=
  Z.lor (Z.lor (Z.shiftl (Z.land x 255) 24)
               (Z.shiftl (Z.land (Z.shiftr x 8) 255) 16))
        (Z.lor (Z.shiftl (Z.land (Z.shiftr x 16) 255) 8)
               (Z.land (Z.shiftr x 24) 255)).

Definition INADDR_ANY : Z := 0.
Definition INADDR_NONE : Z := 0xffffffff.

Definition digit_of (c : ascii) : option Z :=
  let n := uchar c in
  if (48 <=? n) && (n <=? 57) then Some (n - 48) else None.

Definition is_digit (c : ascii) : bool :=
  match digit_of c with
  | Some _ => true
  | None => false
  end.

(** The value of a character as a digit: [0]-[9], [a]-[f], [A]-[F]. *)
Definition digit_value (c : ascii) : option Z :=
  let n := uchar c in
  if (48 <=? n) && (n <=? 57) then Some (n - 48)
  else if (97 <=? n) && (n <=? 102) then Some (n - 87)
  else if (65 <=? n) && (n <=? 70) then Some (n - 55)
  else None.

Definition digit_in (base : Z) (c : ascii) : option Z :=
  match digit_value c with
  | Some d => if d <? base then Some d else None
  | None => None
  end.

(** The digits of base [base] at the front of a text: the number they
    write after [acc], and the text that follows them. *)
Fixpoint digits (base : Z) (s : string) (acc : Z) : Z * string :=
  match s with
  | EmptyString => (acc, s)
  | String c r =>
      match digit_in base c with
      | Some d => digits base r (base * acc + d)
      | None => (acc, s)
      end
  end.

(** [strtoul(cp, &endp, 0)] on a text that starts with a decimal digit:
    [0x] or [0X] before a hexadecimal digit starts a hexadecimal number,
    another leading [0] an octal one, any other digit a decimal one.
    The result is the number and the text after it.  The number is not
    cut to [unsigned long]: the caller refuses every number above 32
    bits, as it refuses the overflow [strtoul] reports. *)
Definition strtoul0 (s : string) : Z * string :=
  match s with
  | String c0 (String x r) =>
      if Ascii.eqb c0 "0" then
        if Ascii.eqb x "x" || Ascii.eqb x "X" then
          match r with
          | String h _ =>
              match digit_in 16 h with
              | Some _ => digits 16 r 0
              | None => (0, String x r)
              end
          | EmptyString => (0, String x r)
          end
        else digits 8 (String x r) 0
      else digits 10 s 0
  | _ => digits 10 s 0
  end.

(** [isspace] in the C locale. *)
Definition isspace (c : ascii) : bool :=
  let n := uchar c in ((9 <=? n) && (n <=? 13)) || (n =? 32).

(** The last number of an address text takes all the bytes the numbers
    before it left: 32, 24, 16 or 8 bits.  The result is the address in
    host byte order. *)
Definition last_part (parts : list Z) (val : Z) : option Z :=
  match parts with
  | [] => Some val
  | [a] =>
      if val >? 0xffffff then None else Some (Z.lor (Z.shiftl a 24) val)
  | [a; b] =>
      if val >? 0xffff then None
      else Some (Z.lor (Z.lor (Z.shiftl a 24) (Z.shiftl b 16)) val)
  | [a; b; c] =>
      if val >? 0xff then None
      else Some (Z.lor (Z.lor (Z.shiftl a 24) (Z.shiftl b 16))
                       (Z.lor (Z.shiftl c 8) val))
  | _ => None
  end.

(** The loop of [inet_aton] in the GNU C library: numbers as C writes
    them, with a dot after each but the last; at most three numbers of
    at most 255 before the last; after the last number the end of the
    text or a white space character.  [parts] are the numbers stored so
    far.  Each turn stores one number, and the fourth dot is refused, so
    four turns are all the loop can take: [fuel] counts them. *)
Fixpoint inet_aton_from (fuel : nat) (s : string) (parts : list Z)
  : option Z :=
  match fuel with
  | O => None
  | S fuel' =>
      match s with
      | EmptyString => None
      | String c _ =>
          if is_digit c then
            let '(val, rest) := strtoul0 s in
            if val >? 0xffffffff then None
            else
              match rest with
              | EmptyString => last_part parts val
              | String c' r =>
                  if Ascii.eqb c' "." then
                    if (val >? 255) || (2 <? List.length parts)%nat
                    then None
                    else inet_aton_from fuel' r (parts ++ [val])
                  else if isspace c' then last_part parts val
                  else None
              end
          else None
      end
  end.

Definition inet_aton (cp : string) : option Z := inet_aton_from 4 cp [].

(** [inet_addr]: the address [inet_aton] reads, in network byte order,
    and [INADDR_NONE] for a text it refuses (the empty string is one).
    On the little-endian host the first number of the text becomes the
    lowest byte of the word. *)
Definition inet_addr (cp : string) : Z :=
  match inet_aton (c_str cp) with
  | Some h => htonl h
  | None => INADDR_NONE
  end.

(** The decimal text of an unsigned number, as [inet_ntoa] writes a byte
    and [operator<<] an [unsigned short]. *)
Definition decimal (n : Z) : string :=
  NilEmpty.string_of_uint (N.to_uint (Z.to_N n)).

(** Whether every character of a text passes a test. *)
Fixpoint all_chars (p : ascii -> bool) (s : string) : bool :=
  match s with
  | EmptyString => true
  | String c r => p c && all_chars p r
  end.

Definition no_NUL (c : ascii) : bool := negb (Ascii.eqb c NUL).

(** The characters of a dotted address. *)
Definition address_char (c : ascii) : bool :=
  is_digit c || Ascii.eqb c ".".

Definition not_char (x c : ascii) : bool := negb (Ascii.eqb c x).

(** [inet_ntoa]: the four bytes of the address in memory order, each in
    decimal, with dots between; on the little-endian host the first byte
    in memory is the lowest byte of the word. *)
Definition inet_ntoa (w : Z) : string :=
  (decimal (Z.land w 255) ++ "." ++
   decimal (Z.land (Z.shiftr w 8) 255) ++ "." ++
   decimal (Z.land (Z.shiftr w 16) 255) ++ "." ++
   decimal (Z.land (Z.shiftr w 24) 255))%string.

End Libc.

(** ** util/sock.h: the endpoint value [SockAddr] *)
Module Sock.
Import Libc.

(** Address families of <sys/socket.h> (the same numbers in winsock). *)
Definition AF_UNIX : Z := 1.
Definition AF_INET : Z := 2.

(** [sizeof] of the two socket address structs and of [sun_path] in
    <netinet/in.h> and <sys/un.h>. *)
Definition sizeof_sockaddr_in : Z := 16.
Definition sizeof_sockaddr_un : Z := 110.
Definition sizeof_sun_path : nat := 108.

Record in_addr := { s_addr : Z }.

Record sockaddr_in := {
  sin_family : Z;
  sin_port : Z;
  sin_addr : in_addr;
  sin_zero : list Z
}.

Record sockaddr_un := {
  sun_family : Z;
  sun_path : string
}.

Record SockAddr := {
  family : Z;
  si : sockaddr_in;
  su : sockaddr_un;
  addressSize : Z
}.

(** [memset(&si, 0, sizeof(si))] *)
Definition si_zeroed : sockaddr_in :=
  {| sin_family := 0; sin_port := 0;
     sin_addr := {| s_addr := 0 |};
     sin_zero := repeat 0 8 |}.

(** The constructors assign some members and leave the others as they
    lie in memory: [mem] is the object before the constructor runs. *)

(** [SockAddr()] *)
Definition SockAddr_default (mem : SockAddr) : SockAddr :=
  {| family := AF_INET;
     si := si_zeroed;
     su := su mem;
     addressSize := sizeof_sockaddr_in |}.

(** [SockAddr(int sourcePort)], the listener side *)
Definition SockAddr_of_port (mem : SockAddr) (sourcePort : Z) : SockAddr :=
  {| family := AF_INET;
     si := {| sin_family := AF_INET;
              sin_port := htons sourcePort;
              sin_addr := {| s_addr := htonl INADDR_ANY |};
              sin_zero := repeat 0 8 |};
     su := su mem;
     addressSize := sizeof_sockaddr_in |}.

Section Resolver.
(** [string hostbyname(const char *hostname)] is declared in sock.h and
    defined elsewhere: an address text is returned as it is, a host
    name as the text of its address, the empty string on failure. *)
Variable hostbyname : string -> string.

(** [SockAddr(const char *iporhost, int port)] *)
Definition SockAddr_of_host (mem : SockAddr) (iporhost : string) (port : Z)
  : SockAddr :=
  if port =? 0 then
    {| family := AF_UNIX;
       si := si mem;
       su := {| sun_family := AF_UNIX;
                sun_path := strncpy iporhost sizeof_sun_path |};
       addressSize := sizeof_sockaddr_un |}
  else
    let ip := hostbyname iporhost in
    {| family := AF_INET;
       si := {| sin_family := AF_INET;
                sin_port := htons port;
                sin_addr := {| s_addr := inet_addr ip |};
                sin_zero := repeat 0 8 |};
       su := su mem;
       addressSize := sizeof_sockaddr_in |}.
End Resolver.

(** [bool isLocalHost() const], the branch without [_WIN32]; the other
    branch reads the same word through the union member [S_un.S_addr]. *)
Definition isLocalHost (a : SockAddr) : bool :=
  if family a =? AF_UNIX then true
  else s_addr (sin_addr (si a)) =? 0x100007f.

(** [unsigned getPort()] *)
Definition getPort (a : SockAddr) : Z :=
  if family a =? AF_UNIX then 0 else sin_port (si a).

(** [bool localhost() const] *)
Definition localhost (a : SockAddr) : bool :=
  if family a =? AF_UNIX then true
  else inet_addr "127.0.0.1" =? s_addr (sin_addr (si a)).

(** [bool operator==(const SockAddr& r) const] *)
Definition operator_eq (l r : SockAddr) : bool :=
  if negb (family l =? family r) then false
  else if family l =? AF_UNIX then
    strcmp (sun_path (su l)) (sun_path (su r)) =? 0
  else
    (s_addr (sin_addr (si l)) =? s_addr (sin_addr (si r)))
    && (sin_port (si l) =? sin_port (si r)).

(** [bool operator!=(const SockAddr& r) const] *)
Definition operator_ne (l r : SockAddr) : bool := negb (operator_eq l r).

(** [bool operator<(const SockAddr& r) const] *)
Definition operator_lt (l r : SockAddr) : bool :=
  if family l <? family r then true
  else if family l >? family r then false
  else if family l =? AF_UNIX then
    strcmp (sun_path (su l)) (sun_path (su r)) <? 0
  else
    if sin_port (si l) >=? sin_port (si r) then false
    else s_addr (sin_addr (si l)) <? s_addr (sin_addr (si r)).

(** The path of a local-domain endpoint as a reader of [su.sun_path]
    sees it ([toString] streams it, [strcmp] compares it), when the
    array is [terminated]. *)
Definition path (a : SockAddr) : string := c_str (sun_path (su a)).

(** The port of a networked endpoint in host byte order, as [toString]
    prints it: [ntohs(si.sin_port)]. *)
Definition port_of (a : SockAddr) : Z := ntohs (sin_port (si a)).

(** An endpoint whose members hold values of their C types: the family
    is one of the two the constructors set, and a networked endpoint has
    a 32-bit address and a 16-bit port. *)
Definition valid (a : SockAddr) : Prop :=
  family a = AF_UNIX \/
  (family a = AF_INET /\
   0 <= s_addr (sin_addr (si a)) < 2 ^ 32 /\
   0 <= sin_port (si a) < 2 ^ 16).

(** [string toString() const]: the stream takes the [char] array
    [su.sun_path] as a C string, and [ntohs(si.sin_port)] as a number. *)
Definition toString (a : SockAddr) : string :=
  if family a =? AF_UNIX then
    (c_str (sun_path (su a)) ++ " (unix domain socket)")%string
  else
    (inet_ntoa (s_addr (sin_addr (si a))) ++ ":" ++
     decimal (ntohs (sin_port (si a))))%string.

(** [operator string() const] *)
Definition operator_string (a : SockAddr) : string := toString a.

(** What a [sockaddr*] of this object points to. *)
Inductive sockaddr :=
| sockaddr_un_at (u : sockaddr_un)
| sockaddr_in_at (i : sockaddr_in).

(** [sockaddr* getSockAddr()] *)
Definition getSockAddr (a : SockAddr) : sockaddr :=
  if family a =? AF_UNIX then sockaddr_un_at (su a)
  else sockaddr_in_at (si a).

(** The struct [getSockAddr] points to names the endpoint's family in
    its own family member, and [addressSize] is the size of that struct:
    what [bind] and [sendto] are handed is consistent. *)
Definition self_described (a : SockAddr) : Prop :=
  match getSockAddr a with
  | sockaddr_un_at u =>
      (sun_family u = family a /\ addressSize a = sizeof_sockaddr_un)
  | sockaddr_in_at i =>
      (sin_family i = family a /\ addressSize a = sizeof_sockaddr_in)
  end.

(** Two endpoints that no member function of [SockAddr] tells apart,
    whatever endpoint [r] they are compared with. *)
Definition same_view (a b : SockAddr) : Prop :=
  (forall r : SockAddr,
      operator_eq a r = operator_eq b r /\
      operator_eq r a = operator_eq r b /\
      operator_lt a r = operator_lt b r /\
      operator_lt r a = operator_lt r b) /\
  isLocalHost a = isLocalHost b /\
  localhost a = localhost b /\
  getPort a = getPort b /\
  toString a = toString b /\
  getSockAddr a = getSockAddr b /\
  addressSize a = addressSize b.

End Sock.

(** ** util/sock.h: the datagram socket [UDPConnection] *)
Module Udp.
Import Libc Sock.

Definition INVALID_SOCKET : Z := -1.
Definition MaxMTU : Z := 16384.

(** Socket type and protocol numbers of <sys/socket.h> and
    <netinet/in.h>. *)
Definition SOCK_DGRAM : Z := 2.
Definition IPPROTO_UDP : Z := 17.
Definition SOL_SOCKET : Z := 1.
Definition SO_RCVBUF : Z := 8.

Record UDPConnection := { sock : Z }.

(** A piece handed to the stream [out()] by [<<]. *)
Inductive token :=
| Str (s : string)
| Num (z : Z)
| Endl.

(** What a member function does to the world outside the object: the
    system calls it makes, with their arguments, and the lines it
    writes. *)
Inductive event :=
| call_socket (domain type protocol : Z)
| call_bind (fd : Z) (addr : sockaddr) (len : Z)
| call_close (fd : Z)
| call_getsockopt (fd level optname : Z)
| out (line : list token).

(** What the system answers during one [init]: the results of [socket],
    [bind] and [getsockopt], the value [getsockopt] stores, and [errno]. *)
Record answers := {
  socket_result : Z;
  bind_result : Z;
  getsockopt_result : Z;
  rcvbuf : Z;
  errno : Z
}.

(** [UDPConnection()] *)
Definition UDPConnection_new : UDPConnection := {| sock := 0 |}.

(** [~UDPConnection()]; [closesocket(s)] is [close(s)]. *)
Definition UDPConnection_delete (c : UDPConnection)
  : UDPConnection * list event :=
  if negb (sock c =? 0) then ({| sock := 0 |}, [call_close (sock c)])
  else (c, []).

(** [int mtu(const SockAddr& sa)] *)
Definition mtu (sa : SockAddr) : Z :=
  if isLocalHost sa then 16384 else 1480.

(** [bool init(SockAddr& myAddr)]: the answer, the object after the call
    and the events in the order they happen.  [optLen] is handed to
    [getsockopt] as it lies in memory; nothing here reads it. *)
Definition init (os : answers) (myAddr : SockAddr) (c : UDPConnection)
  : bool * UDPConnection * list event :=
  let s := socket_result os in
  let e1 := call_socket (family myAddr) SOCK_DGRAM IPPROTO_UDP in
  if s =? INVALID_SOCKET then
    (false, {| sock := s |},
     [e1; out [Str "invalid socket? "; Num (errno os); Endl]])
  else
    let e2 := call_bind s (getSockAddr myAddr) (addressSize myAddr) in
    if negb (bind_result os =? 0) then
      (false, {| sock := 0 |},
       [e1; e2; out [Str "udp init failed"; Endl]; call_close s])
    else
      let e3 := call_getsockopt s SOL_SOCKET SO_RCVBUF in
      if negb (getsockopt_result os =? -1) then
        (true, {| sock := s |},
         [e1; e2; e3; out [Str "SO_RCVBUF:"; Num (rcvbuf os); Endl]])
      else
        (true, {| sock := s |}, [e1; e2; e3]).

(** The descriptors closed by a run, in order. *)
Definition closed (tr : list event) : list Z :=
  flat_map (fun e => match e with call_close fd => [fd] | _ => [] end) tr.

(** The life of a connection that is made, initialised once and
    destroyed. *)
Definition lifetime (os : answers) (myAddr : SockAddr)
  : bool * UDPConnection * list event :=
  let '(ok, c1, tr1) := init os myAddr UDPConnection_new in
  let '(c2, tr2) := UDPConnection_delete c1 in
  (ok, c2, tr1 ++ tr2).

End Udp.

(** ** client/dbclient.h: cursor and replica pair *)
Module Client.
Import Libc.

(** The anonymous enum of bits of the query field 'options'. *)
Definition Option_CursorTailable : Z := 2.
Definition Option_SlaveOk : Z := 4.
Definition Option_ALLMASK : Z := 6.

Inductive exception :=
| AssertionException
| UserAssertion (msg : string).

Inductive result (A : Type) :=
| Value (a : A)
| Thrown (e : exception).
Arguments Value {A} a.
Arguments Thrown {A} e.

(** A member function of an object of type [S]: it runs on the object
    and leaves a value or an exception, and the object after it. *)
Definition method (S A : Type) : Type := S -> result A * S.

Definition ret {S A} (a : A) : method S A := fun s => (Value a, s).

Definition throw {S A} (e : exception) : method S A :=
  fun s => (Thrown e, s).

Definition bind {S A B} (m : method S A) (k : A -> method S B)
  : method S B :=
  fun s =>
    match m s with
    | (Value a, s') => k a s'
    | (Thrown e, s') => (Thrown e, s')
    end.

(** A [const] member function reads the object. *)
Definition const_method {S A} (f : S -> A) : method S A :=
  fun s => (Value (f s), s).

Notation "x <- m ;; k" := (bind m (fun x => k))
  (at level 61, m at next level, right associativity).
Notation "m ;; k" := (bind m (fun _ => k))
  (at level 61, right associativity).

(** The [assert] macro of the code base throws [AssertionException]
    when its condition is false (see the "throws AssertionException"
    notes in dbclient.h). *)
Definition assert {S} (cond : bool) : method S unit :=
  if cond then ret tt else throw AssertionException.

(** The end of a function body: a [return] statement hands a value
    back, and a body that runs to its closing brace hands back nothing.
    In a function declared to return a value C++ leaves the behaviour
    undefined from that point on: [None] records that control got
    there and that no value was returned, and is no statement of what
    the program does next. *)
Definition return_ {S A} (a : A) : method S (option A) := ret (Some a).
Definition end_of_body {S A} : method S (option A) := ret None.

Record DBClientCursor := {
  cursorId : Z;
  nReturned : Z;
  pos : Z;
  data : Z;
  m : string;
  opts : Z;
  ns : string;
  nToReturn : Z
}.

Section Cursor.
(** From db/jsobj.h, which dbclient.h includes. *)
Variables JSObj Element : Type.
Variable firstElement : JSObj -> Element.
Variable fieldName : Element -> string.

(** [JSObj next()] is declared in the class and defined elsewhere. *)
Variable next : method DBClientCursor JSObj.

(** [JSObj nextSafe()]: the body ends after the [assert], without a
    [return] statement.  The defined outcomes are the exception of
    [next()] and the exception of the [assert]; [None] is the run off
    the end of the body. *)
Definition nextSafe : method DBClientCursor (option JSObj) :=
  o <- next ;;
  let e := firstElement o in
  assert (negb (strcmp (fieldName e) "$err" =? 0)) ;;
  end_of_body.
End Cursor.

(** [bool isDead() const] *)
Definition isDead : method DBClientCursor bool :=
  const_method (fun c => cursorId c =? 0).

(** [bool tailable() const] *)
Definition tailable : method DBClientCursor bool :=
  const_method (fun c => negb (Z.land (opts c) Option_CursorTailable =? 0)).

Record DBClientConnection := {
  failed : bool;
  autoReconnect : bool;
  lastReconnectTry : Z;
  serverAddress : string
}.

(** [enum State { NotSetL=0, NotSetR=1, Left, Right }] *)
Inductive State := NotSetL | NotSetR | Left | Right.

Definition State_value (s : State) : Z :=
  match s with
  | NotSetL => 0
  | NotSetR => 1
  | Left => 2
  | Right => 3
  end.

Definition State_eqb (a b : State) : bool :=
  State_value a =? State_value b.

Record DBClientPaired := {
  left : DBClientConnection;
  right : DBClientConnection;
  master : State
}.

(** An expression statement: the expression is evaluated and its value
    dropped. *)
Definition discard {S A} (_ : A) : method S unit := ret tt.

(** [void isntMaster() { master == Left ? NotSetR : NotSetL; }] *)
Definition isntMaster : method DBClientPaired unit :=
  fun p =>
    discard (if State_eqb (master p) Left then NotSetR else NotSetL) p.

(** A document of jsobj.h for concrete runs: its elements in order, each
    a field name and a value text; the first element of an empty
    document is the end-of-object element, whose field name is empty. *)
Definition doc : Type := list (string * string).
Definition doc_firstElement (o : doc) : string * string :=
  match o with
  | e :: _ => e
  | [] => (EmptyString, EmptyString)
  end.
Definition doc_fieldName (e : string * string) : string := fst e.

End Client.

(** ** Concrete endpoints, cursors and pairs for the runs below *)
Module Samples.
Import Libc Sock Client.

(** Two states of the memory an endpoint is built in. *)
Definition mem0 : SockAddr :=
  {| family := 0;
     si := si_zeroed;
     su := {| sun_family := 0; sun_path := EmptyString |};
     addressSize := 0 |}.

Definition mem1 : SockAddr :=
  {| family := 7;
     si := {| sin_family := 3; sin_port := 4660;
              sin_addr := {| s_addr := 0x100007f |};
              sin_zero := [1; 2; 3] |};
     su := {| sun_family := 9; sun_path := "/var/run/other" |};
     addressSize := 5 |}.

(** A resolver that is handed address texts only. *)
Definition resolve_ip (hostname : string) : string := hostname.

Definition endpoint (ip : string) (port : Z) : SockAddr :=
  SockAddr_of_host resolve_ip mem0 ip port.

Definition local_socket (mem : SockAddr) (p : string) : SockAddr :=
  SockAddr_of_host resolve_ip mem p 0.

(** A path of 120 bytes, longer than [sun_path]. *)
Definition long_path : string :=
  string_of_list_ascii (repeat "a"%char 120).

(** A second path that agrees with [long_path] on its first 120 bytes. *)
Definition long_path_b : string := (long_path ++ "/b")%string.

(** A resolver that finds no host. *)
Definition resolve_nothing (hostname : string) : string := EmptyString.

(** Answers of the system to one [init]: all calls succeed; [bind]
    fails; [socket] fails. *)
Definition os_ok : Udp.answers :=
  {| Udp.socket_result := 5; Udp.bind_result := 0;
     Udp.getsockopt_result := 0; Udp.rcvbuf := 212992; Udp.errno := 0 |}.

Definition os_bind_fails : Udp.answers :=
  {| Udp.socket_result := 5; Udp.bind_result := -1;
     Udp.getsockopt_result := 0; Udp.rcvbuf := 0; Udp.errno := 98 |}.

Definition os_socket_fails : Udp.answers :=
  {| Udp.socket_result := -1; Udp.bind_result := 0;
     Udp.getsockopt_result := 0; Udp.rcvbuf := 0; Udp.errno := 24 |}.

(** A cursor with the options word [o]. *)
Definition cursor_with (o : Z) : DBClientCursor :=
  {| cursorId := 0; nReturned := 0; pos := 0; data := 0; m := EmptyString;
     opts := o; ns := "test.people"; nToReturn := 0 |}.

Definition cursor0 : DBClientCursor :=
  {| cursorId := 0; nReturned := 1; pos := 0; data := 0; m := EmptyString;
     opts := 0; ns := "test.people"; nToReturn := 0 |}.

Definition person : doc := [("name", "joe"); ("age", "33")].
Definition remote_error : doc := [("$err", "not master")].

(** A [next()] whose batch holds the document [d]. *)
Definition next_gives (d : doc) : method DBClientCursor doc :=
  fun c =>
    (Value d,
     {| cursorId := cursorId c; nReturned := nReturned c;
        pos := pos c + 1; data := data c; m := m c;
        opts := opts c; ns := ns c; nToReturn := nToReturn c |}).

Definition conn0 : DBClientConnection :=
  {| failed := false; autoReconnect := true; lastReconnectTry := 0;
     serverAddress := "db1" |}.

Definition pair_in (s : State) : DBClientPaired :=
  {| left := conn0; right := conn0; master := s |}.

End Samples.

(** ** Facts about the C library model *)
Section LibcFacts.
Import Libc.

Lemma uchar_range (c : ascii) : 0 <= uchar c < 256.
Proof.
  unfold uchar. pose proof (N_ascii_bounded c). lia.
Qed.

Lemma uchar_inj (c d : ascii) : uchar c = uchar d -> c = d.
Proof.
  unfold uchar. intro H. apply N2Z.inj in H.
  rewrite <- (ascii_N_embedding c), <- (ascii_N_embedding d).
  now rewrite H.
Qed.

Lemma uchar_NUL (c : ascii) : uchar c = 0 <-> c = NUL.
Proof.
  split.
  - intro H. apply uchar_inj. exact H.
  - intros ->. reflexivity.
Qed.

Lemma strcmp_refl (s : string) : strcmp s s = 0.
Proof.
  induction s as [|c r IH]; simpl.
  - reflexivity.
  - rewrite Ascii.eqb_refl. destruct (Ascii.eqb c NUL); auto.
Qed.

Lemma strcmp_flip (s t : string) : strcmp t s = - strcmp s t.
Proof.
  revert t. induction s as [|c r IH]; intros [|d q]; simpl; try lia.
  rewrite (Ascii.eqb_sym d c).
  destruct (Ascii.eqb_spec c d) as [->|Hcd].
  - destruct (Ascii.eqb d NUL); [reflexivity | apply IH].
  - lia.
Qed.

Lemma strcmp_zero_iff (s t : string) : strcmp s t = 0 <-> c_str s = c_str t.
Proof.
  revert t. induction s as [|c r IH]; intros [|d q]; simpl.
  - tauto.
  - destruct (Ascii.eqb_spec d NUL) as [->|Hd].
    + split; reflexivity.
    + split; [|discriminate].
      intro H. exfalso. apply Hd, uchar_NUL. lia.
  - destruct (Ascii.eqb_spec c NUL) as [->|Hc].
    + split; reflexivity.
    + split; [|discriminate].
      intro H. exfalso. apply Hc, uchar_NUL. exact H.
  - destruct (Ascii.eqb_spec c d) as [->|Hcd].
    + destruct (Ascii.eqb_spec d NUL) as [->|Hd].
      * split; reflexivity.
      * rewrite IH. split; [intros ->; reflexivity | intro H; now inversion H].
    + split.
      * intro H. exfalso. apply Hcd, uchar_inj. lia.
      * destruct (Ascii.eqb_spec c NUL) as [->|Hc];
          destruct (Ascii.eqb_spec d NUL) as [->|Hd];
          intro H; try discriminate H; try congruence.
Qed.

Lemma uchar_pos (c : ascii) : c <> NUL -> 0 < uchar c.
Proof.
  intro H. pose proof (uchar_range c).
  assert (uchar c <> 0) by (rewrite uchar_NUL; exact H). lia.
Qed.

Lemma uchar_neq (c d : ascii) : c <> d -> uchar c <> uchar d.
Proof. intros H E. apply H, uchar_inj, E. Qed.

Lemma strcmp_lt_trans (s t u : string) :
  strcmp s t < 0 -> strcmp t u < 0 -> strcmp s u < 0.
Proof.
  revert t u. induction s as [|c r IH]; intros [|d q] [|e w]; simpl;
    try (pose proof (uchar_range c)); try (pose proof (uchar_range d));
    try (pose proof (uchar_range e)); try lia.
  - destruct (Ascii.eqb_spec d e) as [->|Hde]; [|lia].
    destruct (Ascii.eqb_spec e NUL) as [->|He]; [lia|].
    pose proof (uchar_pos e He). lia.
  - destruct (Ascii.eqb_spec c d) as [->|Hcd].
    + destruct (Ascii.eqb_spec d NUL) as [->|Hd]; [lia|].
      destruct (Ascii.eqb_spec d e) as [->|Hde]; [|lia].
      destruct (Ascii.eqb_spec e NUL) as [->|He]; [congruence|]. apply IH.
    + destruct (Ascii.eqb_spec d e) as [->|Hde].
      * destruct (Ascii.eqb_spec c e) as [->|Hce]; [congruence|].
        destruct (Ascii.eqb e NUL); lia.
      * destruct (Ascii.eqb_spec c e) as [->|Hce]; [|lia].
        intros Hst Htu. exfalso. lia.
Qed.

Lemma strncpy_length (src : string) (n : nat) :
  String.length (strncpy src n) = n.
Proof.
  revert src. induction n as [|n IH]; intros src; simpl.
  - reflexivity.
  - destruct src as [|c r]; simpl.
    + now rewrite IH.
    + destruct (Ascii.eqb c NUL); simpl; now rewrite IH.
Qed.

Lemma strncpy_c_str (src : string) (n : nat) :
  (strlen src < n)%nat -> c_str (strncpy src n) = c_str src.
Proof.
  unfold strlen. revert src. induction n as [|n IH]; intros src H.
  - inversion H.
  - destruct src as [|c r]; simpl in *.
    + reflexivity.
    + destruct (Ascii.eqb_spec c NUL) as [->|Hc]; simpl.
      * reflexivity.
      * destruct (Ascii.eqb_spec c NUL) as [->|_]; [congruence|].
        simpl in H. rewrite IH by lia. reflexivity.
Qed.

(** The array [strncpy] fills is terminated exactly when the source is
    shorter than the array. *)
Lemma strncpy_has_NUL (src : string) (n : nat) :
  has_NUL (strncpy src n) = (strlen src <? n)%nat.
Proof.
  unfold strlen. revert src. induction n as [|n IH]; intros src.
  - reflexivity.
  - destruct src as [|c r]; cbn [strncpy has_NUL c_str].
    + rewrite Ascii.eqb_refl. reflexivity.
    + destruct (Ascii.eqb_spec c NUL) as [->|Hc].
      * cbn [has_NUL]. rewrite Ascii.eqb_refl. reflexivity.
      * cbn [has_NUL String.length].
        destruct (Ascii.eqb_spec c NUL) as [E|_]; [contradiction|].
        rewrite IH. reflexivity.
Qed.

(** When the source holds [n] bytes or more the array is full and holds
    no NUL; [c_str] then spans the whole array (the program would read
    on). *)
Lemma strncpy_full (src : string) (n : nat) :
  (n <= strlen src)%nat -> String.length (c_str (strncpy src n)) = n.
Proof.
  unfold strlen. revert src. induction n as [|n IH]; intros src H.
  - reflexivity.
  - destruct src as [|c r]; simpl in *.
    + inversion H.
    + destruct (Ascii.eqb_spec c NUL) as [->|Hc]; simpl in *.
      * inversion H.
      * destruct (Ascii.eqb_spec c NUL) as [->|_]; [congruence|].
        simpl. rewrite IH by lia. reflexivity.
Qed.

Lemma testbit_255 (i : Z) : Z.testbit 255 i = (0 <=? i) && (i <? 8).
Proof. change 255 with (Z.ones 8). apply Z.testbit_ones. lia. Qed.

Lemma testbit_shiftl (a n i : Z) :
  0 <= n -> Z.testbit (Z.shiftl a n) i = (n <=? i) && Z.testbit a (i - n).
Proof.
  intro Hn. destruct (Z.leb_spec n i).
  - now rewrite Z.shiftl_spec_high by lia.
  - now rewrite Z.shiftl_spec_low by lia.
Qed.

Lemma testbit_shiftr (a n i : Z) :
  0 <= n -> Z.testbit (Z.shiftr a n) i = (0 <=? i) && Z.testbit a (i + n).
Proof.
  intro Hn. destruct (Z.leb_spec 0 i).
  - now rewrite Z.shiftr_spec by lia.
  - now rewrite Z.testbit_neg_r by lia.
Qed.

Ltac bits :=
  repeat first
    [ rewrite Z.lor_spec | rewrite Z.land_spec | rewrite testbit_255
    | rewrite testbit_shiftl by lia | rewrite testbit_shiftr by lia
    | rewrite Z.testbit_mod_pow2 by lia ].

Ltac cmps :=
  repeat match goal with
         | |- context [?a <=? ?b] => destruct (Z.leb_spec a b)
         | |- context [?a <? ?b] => destruct (Z.ltb_spec a b)
         end;
  try lia; simpl;
  rewrite ?andb_true_r, ?andb_false_r, ?orb_false_r, ?orb_true_r; simpl;
  try reflexivity; try (f_equal; lia).

(** The port comes back from network byte order cut to 16 bits. *)
Lemma ntohs_htons (x : Z) : ntohs (htons x) = x mod 2 ^ 16.
Proof.
  unfold ntohs, htons. apply Z.bits_inj'. intros n Hn. bits.
  destruct (Z.lt_ge_cases n 8); [|destruct (Z.lt_ge_cases n 16)];
    repeat match goal with
           | |- context [?a <=? ?b] =>
               first [ replace (a <=? b) with true
                         by (symmetry; apply Z.leb_le; lia)
                     | replace (a <=? b) with false
                         by (symmetry; apply Z.leb_gt; lia) ]
           | |- context [?a <? ?b] =>
               first [ replace (a <? b) with true
                         by (symmetry; apply Z.ltb_lt; lia)
                     | replace (a <? b) with false
                         by (symmetry; apply Z.ltb_ge; lia) ]
           end;
    cbn [andb orb];
    rewrite ?andb_true_r, ?andb_false_r, ?orb_false_r, ?orb_true_r;
    cbn [andb orb]; try reflexivity; try (f_equal; lia).
Qed.

Lemma htonl_INADDR_ANY : htonl INADDR_ANY = INADDR_ANY.
Proof. reflexivity. Qed.

Example inet_addr_loopback : inet_addr "127.0.0.1" = 0x100007f.
Proof. reflexivity. Qed.

Example inet_addr_empty : inet_addr EmptyString = INADDR_NONE.
Proof. reflexivity. Qed.

Example inet_addr_forms :
  inet_addr "010.0.0.1" = inet_addr "8.0.0.1" /\
  inet_addr "0x7f.0.0.1" = inet_addr "127.0.0.1" /\
  inet_addr "127.1" = inet_addr "127.0.0.1" /\
  inet_addr "2130706433" = inet_addr "127.0.0.1" /\
  inet_addr "10.0.0.1 x" = inet_addr "10.0.0.1" /\
  inet_addr "10.0.0.1x" = INADDR_NONE /\
  inet_addr "08.0.0.1" = INADDR_NONE /\
  inet_addr "10.0.0.256" = INADDR_NONE /\
  inet_addr "10.0.0.1." = INADDR_NONE /\
  inet_addr "1.2.3.4.5" = INADDR_NONE /\
  inet_addr "4294967296" = INADDR_NONE.
Proof. repeat split. Qed.

Example htons_27017 : htons 27017 = 0x8969.
Proof. reflexivity. Qed.

Example strncpy_short :
  strncpy "ab" 4
  = String "a" (String "b" (String NUL (String NUL EmptyString))).
Proof. reflexivity. Qed.

Example strncpy_cut : strncpy "abcdef" 4 = "abcd".
Proof. reflexivity. Qed.

End LibcFacts.

(** ** Endpoint equality and the loopback predicates *)
Section EndpointEquality.
Import Libc Sock Samples.

Lemma operator_eq_refl (a : SockAddr) : operator_eq a a = true.
Proof.
  unfold operator_eq. rewrite Z.eqb_refl. simpl.
  destruct (family a =? AF_UNIX).
  - rewrite strcmp_refl. reflexivity.
  - now rewrite !Z.eqb_refl.
Qed.

Lemma operator_eq_sym (a b : SockAddr) : operator_eq b a = operator_eq a b.
Proof.
  unfold operator_eq. rewrite (Z.eqb_sym (family b) (family a)).
  destruct (Z.eqb_spec (family a) (family b)) as [E|NE]; simpl; [|reflexivity].
  rewrite <- E. destruct (family a =? AF_UNIX).
  - rewrite (strcmp_flip (sun_path (su a)) (sun_path (su b))).
    destruct (Z.eqb_spec (strcmp (sun_path (su a)) (sun_path (su b))) 0) as [Z0|NZ].
    + rewrite Z0. reflexivity.
    + apply Z.eqb_neq. lia.
  - rewrite (Z.eqb_sym (s_addr (sin_addr (si b)))).
    rewrite (Z.eqb_sym (sin_port (si b))). reflexivity.
Qed.

Lemma operator_eq_cross_family (a b : SockAddr) :
  family a <> family b -> operator_eq a b = false.
Proof.
  intro NE. unfold operator_eq.
  apply Z.eqb_neq in NE. now rewrite NE.
Qed.



(** C10: [==] is reflexive and symmetric, and [!=] is its negation. *)
Theorem operator_eq_reflexive_symmetric :
  (forall a : SockAddr, operator_eq a a = true) /\
  (forall a b : SockAddr, operator_eq b a = operator_eq a b) /\
  (forall a b : SockAddr, operator_ne a b = negb (operator_eq a b)).
Proof.
  split; [exact operator_eq_refl|].
  split; [exact operator_eq_sym|].
  intros a b. reflexivity.
Qed.

(** C6: [isLocalHost] answers true for every local-domain endpoint, and
    for a networked endpoint exactly when [s_addr] is the address
    127.0.0.1 in network byte order. *)
Theorem isLocalHost_spec (a : SockAddr) :
  (family a = AF_UNIX -> isLocalHost a = true) /\
  (family a = AF_INET ->
     (isLocalHost a = true
      <-> s_addr (sin_addr (si a)) = inet_addr "127.0.0.1")).
Proof.
  unfold isLocalHost. split; intros ->; simpl.
  - reflexivity.
  - rewrite Z.eqb_eq. reflexivity.
Qed.

Lemma isLocalHost_spec_witness :
  isLocalHost (local_socket mem0 "/tmp/mongo.sock") = true /\
  (isLocalHost (endpoint "127.0.0.1" 27017) = true
   <-> s_addr (sin_addr (si (endpoint "127.0.0.1" 27017)))
       = inet_addr "127.0.0.1") /\
  (isLocalHost (endpoint "10.0.0.1" 27017) = true
   <-> s_addr (sin_addr (si (endpoint "10.0.0.1" 27017)))
       = inet_addr "127.0.0.1").
Proof.
  split; [|split].
  - exact (proj1 (isLocalHost_spec (local_socket mem0 "/tmp/mongo.sock"))
                 eq_refl).
  - exact (proj2 (isLocalHost_spec (endpoint "127.0.0.1" 27017)) eq_refl).
  - exact (proj2 (isLocalHost_spec (endpoint "10.0.0.1" 27017)) eq_refl).
Defined.

(** C9: [isLocalHost] and [localhost] give the same answer on every
    endpoint. *)
Theorem isLocalHost_localhost_agree (a : SockAddr) :
  isLocalHost a = localhost a.
Proof.
  unfold isLocalHost, localhost.
  destruct (family a =? AF_UNIX); [reflexivity|].
  rewrite inet_addr_loopback. apply Z.eqb_sym.
Qed.

Example loopback_endpoint_is_local :
  isLocalHost (endpoint "127.0.0.1" 27017) = true /\
  localhost (endpoint "127.0.0.1" 27017) = true /\
  isLocalHost (endpoint "10.0.0.1" 27017) = false /\
  localhost (endpoint "10.0.0.1" 27017) = false.
Proof. repeat split. Qed.

End EndpointEquality.

(** ** Endpoint construction *)
Section EndpointConstruction.
Import Libc Sock Samples.

Variable hostbyname : string -> string.
Variable mem : SockAddr.

Lemma SockAddr_of_port_networked (sourcePort : Z) :
  let a := SockAddr_of_port mem sourcePort in
  family a = AF_INET /\
  s_addr (sin_addr (si a)) = INADDR_ANY /\
  sin_port (si a) = htons sourcePort /\
  port_of a = sourcePort mod 2 ^ 16.
Proof.
  simpl. repeat split. unfold port_of. simpl. apply ntohs_htons.
Qed.

Lemma SockAddr_of_host_local (iporhost : string) :
  (strlen iporhost < sizeof_sun_path)%nat ->
  let a := SockAddr_of_host hostbyname mem iporhost 0 in
  family a = AF_UNIX /\ path a = c_str iporhost.
Proof.
  intros Hlen a. split; [reflexivity|].
  change (c_str (strncpy iporhost sizeof_sun_path) = c_str iporhost).
  apply strncpy_c_str. exact Hlen.
Qed.

Lemma SockAddr_of_host_networked (iporhost : string) (port : Z) :
  port <> 0 ->
  let a := SockAddr_of_host hostbyname mem iporhost port in
  family a = AF_INET /\
  s_addr (sin_addr (si a)) = inet_addr (hostbyname iporhost) /\
  sin_port (si a) = htons port /\
  port_of a = port mod 2 ^ 16.
Proof.
  intro Hp. unfold SockAddr_of_host.
  apply Z.eqb_neq in Hp. rewrite Hp. simpl. repeat split.
  unfold port_of. simpl. apply ntohs_htons.
Qed.

(** The path array of a local-domain endpoint is terminated exactly
    when the path given is shorter than [sun_path]. *)
Lemma SockAddr_of_host_terminated (iporhost : string) :
  terminated (sun_path (su (SockAddr_of_host hostbyname mem iporhost 0)))
  <-> (strlen iporhost < sizeof_sun_path)%nat.
Proof.
  change (has_NUL (strncpy iporhost sizeof_sun_path) = true
          <-> (strlen iporhost < sizeof_sun_path)%nat).
  rewrite strncpy_has_NUL. apply Nat.ltb_lt.
Qed.

End EndpointConstruction.

Section EndpointConstructionClaim.
Import Libc Sock Samples.

(** C7, as amended: a port alone gives a networked endpoint on the
    wildcard address with that port (in network byte order, cut to 16
    bits); a host string shorter than [sun_path] with port 0 gives a
    local-domain endpoint whose path is that string; a host string with
    a port other than 0 gives a networked endpoint whose address is the
    resolver's answer read by [inet_addr], with that port. *)
Theorem SockAddr_construction
    (hostbyname : string -> string) (mem : SockAddr) :
  (forall sourcePort : Z,
      let a := SockAddr_of_port mem sourcePort in
      family a = AF_INET /\
      s_addr (sin_addr (si a)) = INADDR_ANY /\
      sin_port (si a) = htons sourcePort /\
      port_of a = sourcePort mod 2 ^ 16) /\
  (forall iporhost : string,
      (strlen iporhost < sizeof_sun_path)%nat ->
      let a := SockAddr_of_host hostbyname mem iporhost 0 in
      family a = AF_UNIX /\ path a = c_str iporhost) /\
  (forall (iporhost : string) (port : Z),
      port <> 0 ->
      let a := SockAddr_of_host hostbyname mem iporhost port in
      family a = AF_INET /\
      s_addr (sin_addr (si a)) = inet_addr (hostbyname iporhost) /\
      sin_port (si a) = htons port /\
      port_of a = port mod 2 ^ 16).
Proof.
  split; [|split].
  - apply SockAddr_of_port_networked.
  - apply SockAddr_of_host_local.
  - apply SockAddr_of_host_networked.
Qed.

Lemma SockAddr_construction_witness :
  (family (SockAddr_of_port mem1 27017) = AF_INET /\
   s_addr (sin_addr (si (SockAddr_of_port mem1 27017))) = INADDR_ANY /\
   sin_port (si (SockAddr_of_port mem1 27017)) = htons 27017 /\
   port_of (SockAddr_of_port mem1 27017) = 27017 mod 2 ^ 16) /\
  (family (local_socket mem1 "/tmp/mongo.sock") = AF_UNIX /\
   path (local_socket mem1 "/tmp/mongo.sock") = c_str "/tmp/mongo.sock") /\
  (family (endpoint "10.0.0.1" 27017) = AF_INET /\
   s_addr (sin_addr (si (endpoint "10.0.0.1" 27017)))
     = inet_addr (resolve_ip "10.0.0.1") /\
   sin_port (si (endpoint "10.0.0.1" 27017)) = htons 27017 /\
   port_of (endpoint "10.0.0.1" 27017) = 27017 mod 2 ^ 16).
Proof.
  split; [|split].
  - exact (proj1 (SockAddr_construction resolve_ip mem1) 27017).
  - apply (proj1 (proj2 (SockAddr_construction resolve_ip mem1))
             "/tmp/mongo.sock").
    vm_compute. lia.
  - apply (proj2 (proj2 (SockAddr_construction resolve_ip mem0))
             "10.0.0.1" 27017).
    lia.
Defined.

(** C7 as the specification words it fails on a path longer than
    [sun_path]: the endpoint's path is not the string it was built
    from. *)
Lemma SockAddr_of_host_cuts_long_path :
  family (local_socket mem0 long_path) = AF_UNIX /\
  path (local_socket mem0 long_path) <> c_str long_path.
Proof.
  split; [reflexivity|].
  intro H. apply (f_equal String.length) in H.
  vm_compute in H. discriminate H.
Qed.

End EndpointConstructionClaim.

(** ** The order of endpoints *)
Section EndpointOrder.
Import Libc Sock Samples.

Ltac unfold_lt :=
  unfold operator_lt;
  repeat match goal with
         | |- context [?a <? ?b] => destruct (Z.ltb_spec a b)
         | |- context [?a >? ?b] =>
             rewrite (Z.gtb_ltb a b); destruct (Z.ltb_spec b a)
         | |- context [?a >=? ?b] =>
             rewrite (Z.geb_leb a b); destruct (Z.leb_spec b a)
         | |- context [?a =? ?b] => destruct (Z.eqb_spec a b)
         end.

Lemma operator_lt_irrefl (a : SockAddr) : operator_lt a a = false.
Proof.
  unfold operator_lt. rewrite Z.ltb_irrefl, Z.gtb_ltb, Z.ltb_irrefl.
  destruct (family a =? AF_UNIX).
  - rewrite strcmp_refl. reflexivity.
  - rewrite Z.geb_leb, Z.leb_refl. reflexivity.
Qed.

Lemma operator_lt_asym (a b : SockAddr) :
  operator_lt a b = true -> operator_lt b a = false.
Proof.
  pose proof (strcmp_flip (sun_path (su a)) (sun_path (su b))) as Hflip.
  unfold_lt; intros; try reflexivity; try discriminate; try lia; congruence.
Qed.

Lemma operator_lt_trans (a b c : SockAddr) :
  operator_lt a b = true -> operator_lt b c = true -> operator_lt a c = true.
Proof.
  pose proof (strcmp_lt_trans (sun_path (su a)) (sun_path (su b))
                              (sun_path (su c))) as Htrans.
  unfold_lt; intros; try reflexivity; try discriminate; try lia; congruence.
Qed.

(** Where the order is total: between the families, and among the
    local-domain endpoints. *)
Lemma operator_lt_total_local (a b : SockAddr) :
  family a = AF_UNIX -> family b = AF_UNIX ->
  operator_eq a b = false ->
  operator_lt a b = true \/ operator_lt b a = true.
Proof.
  intros Ha Hb. unfold operator_eq, operator_lt. rewrite Ha, Hb. simpl.
  rewrite (strcmp_flip (sun_path (su a)) (sun_path (su b))).
  intro NE. apply Z.eqb_neq in NE.
  destruct (Z.ltb_spec (strcmp (sun_path (su a)) (sun_path (su b))) 0);
    [left; reflexivity | right; apply Z.ltb_lt; lia].
Qed.

Lemma operator_lt_family_first (a b : SockAddr) :
  family a < family b -> operator_lt a b = true /\ operator_lt b a = false.
Proof.
  intro H. unfold_lt; try lia; split; reflexivity.
Qed.

(** X1: [<] is a strict partial order on all endpoints: irreflexive,
    asymmetric and transitive. *)
Theorem operator_lt_strict_partial_order :
  (forall a : SockAddr, operator_lt a a = false) /\
  (forall a b : SockAddr,
      operator_lt a b = true -> operator_lt b a = false) /\
  (forall a b c : SockAddr,
      operator_lt a b = true -> operator_lt b c = true ->
      operator_lt a c = true).
Proof.
  split; [exact operator_lt_irrefl|].
  split; [exact operator_lt_asym | exact operator_lt_trans].
Qed.

Lemma operator_lt_strict_partial_order_witness :
  operator_lt (endpoint "10.0.0.2" 81) (endpoint "10.0.0.2" 81) = false /\
  operator_lt (endpoint "10.0.0.2" 81) (endpoint "10.0.0.1" 80) = false /\
  operator_lt (local_socket mem0 "/tmp/a") (endpoint "10.0.0.2" 81) = true.
Proof.
  split; [|split].
  - exact (proj1 operator_lt_strict_partial_order (endpoint "10.0.0.2" 81)).
  - exact (proj1 (proj2 operator_lt_strict_partial_order)
             (endpoint "10.0.0.1" 80) (endpoint "10.0.0.2" 81) eq_refl).
  - exact (proj2 (proj2 operator_lt_strict_partial_order)
             (local_socket mem0 "/tmp/a") (endpoint "10.0.0.1" 80)
             (endpoint "10.0.0.2" 81) eq_refl eq_refl).
Defined.

(** C2 at two networked endpoints that share their port: they are
    different endpoints and [<] holds in neither direction.  The same
    happens when the port and the address disagree on the direction. *)
Theorem operator_lt_not_total :
  (operator_ne (endpoint "10.0.0.1" 80) (endpoint "10.0.0.2" 80) = true /\
   operator_lt (endpoint "10.0.0.1" 80) (endpoint "10.0.0.2" 80) = false /\
   operator_lt (endpoint "10.0.0.2" 80) (endpoint "10.0.0.1" 80) = false) /\
  (operator_ne (endpoint "10.0.0.1" 81) (endpoint "10.0.0.2" 80) = true /\
   operator_lt (endpoint "10.0.0.1" 81) (endpoint "10.0.0.2" 80) = false /\
   operator_lt (endpoint "10.0.0.2" 80) (endpoint "10.0.0.1" 81) = false).
Proof. repeat split. Qed.

End EndpointOrder.

(** ** The cursor *)
Section CursorFacts.
Import Libc Client Samples.

Lemma const_method_keeps {S A : Type} (f : S -> A) (s : S) :
  snd (const_method f s) = s.
Proof. reflexivity. Qed.

(** C3: [isDead()] answers true exactly when the cursor id is 0, leaves
    the cursor as it was, and so answers the same when asked again. *)
Theorem isDead_spec (c : DBClientCursor) :
  fst (isDead c) = Value (cursorId c =? 0) /\
  (fst (isDead c) = Value true <-> cursorId c = 0) /\
  snd (isDead c) = c /\
  isDead (snd (isDead c)) = isDead c /\
  (isDead ;; isDead) c = isDead c.
Proof.
  unfold isDead, const_method, bind. simpl. repeat split.
  - intro H. apply Z.eqb_eq. now inversion H.
  - intro H. apply Z.eqb_eq in H. now rewrite H.
Qed.

Lemma land_2 (x : Z) : Z.land x 2 = if Z.testbit x 1 then 2 else 0.
Proof.
  apply Z.bits_inj'. intros i Hi. rewrite Z.land_spec.
  change 2 with (2 ^ 1) at 1. rewrite Z.pow2_bits_eqb by lia.
  destruct (Z.eqb_spec 1 i) as [<-|NE].
  - destruct (Z.testbit x 1); reflexivity.
  - rewrite andb_false_r.
    destruct (Z.testbit x 1); [|now rewrite Z.bits_0].
    change 2 with (2 ^ 1). rewrite Z.pow2_bits_eqb by lia.
    symmetry. now apply Z.eqb_neq.
Qed.

(** C8: the tailable option is the value 2, bit 1, and the slaveOk
    option the value 4, bit 2; [tailable()] answers with bit 1 of the
    cursor's options word and leaves the cursor as it was. *)
Theorem tailable_spec :
  Option_CursorTailable = 2 /\ Option_CursorTailable = Z.shiftl 1 1 /\
  Option_SlaveOk = 4 /\ Option_SlaveOk = Z.shiftl 1 2 /\
  forall c : DBClientCursor,
    tailable c = (Value (Z.testbit (opts c) 1), c).
Proof.
  do 4 (split; [reflexivity|]). intro c.
  unfold tailable, const_method, Option_CursorTailable.
  rewrite land_2. destruct (Z.testbit (opts c) 1); reflexivity.
Qed.

Example tailable_runs :
  fst (tailable cursor0) = Value false /\
  (forall c, opts c = 6 -> fst (tailable c) = Value true) /\
  (forall c, opts c = 4 -> fst (tailable c) = Value false) /\
  (forall c, opts c = -2 -> fst (tailable c) = Value true).
Proof.
  split; [reflexivity|].
  repeat split; intros c E; unfold tailable, const_method; simpl;
    rewrite E; reflexivity.
Qed.

Section NextSafe.
Variables JSObj Element : Type.
Variable firstElement : JSObj -> Element.
Variable fieldName : Element -> string.
Variable next : method DBClientCursor JSObj.

Let nextSafe' := nextSafe JSObj Element firstElement fieldName next.

(** Whatever [next()] yields, [nextSafe()] hands no document back. *)
Lemma nextSafe_never_returns (c : DBClientCursor) (o : JSObj) :
  fst (nextSafe' c) <> Value (Some o).
Proof.
  unfold nextSafe', nextSafe, bind, assert, end_of_body, ret, throw.
  destruct (next c) as [[d|e] c'].
  - destruct (negb _); simpl; discriminate.
  - simpl. discriminate.
Qed.

(** A document whose first field is named [$err] makes the assertion
    fail. *)
Lemma nextSafe_throws_on_error (c c' : DBClientCursor) (o : JSObj) :
  next c = (Value o, c') ->
  c_str (fieldName (firstElement o)) = "$err" ->
  nextSafe' c = (Thrown AssertionException, c').
Proof.
  intros Hn He.
  unfold nextSafe', nextSafe, bind, assert, end_of_body, ret, throw.
  rewrite Hn.
  assert (strcmp (fieldName (firstElement o)) "$err" = 0) as ->
    by (apply strcmp_zero_iff; exact He).
  reflexivity.
Qed.

(** Any other document takes the body to its end, where nothing is
    returned. *)
Lemma nextSafe_falls_off_end (c c' : DBClientCursor) (o : JSObj) :
  next c = (Value o, c') ->
  c_str (fieldName (firstElement o)) <> "$err" ->
  nextSafe' c = (Value None, c').
Proof.
  intros Hn He.
  unfold nextSafe', nextSafe, bind, assert, end_of_body, ret, throw.
  rewrite Hn.
  destruct (Z.eqb_spec (strcmp (fieldName (firstElement o)) "$err") 0)
    as [E|NE]; [|reflexivity].
  exfalso. apply He. apply strcmp_zero_iff in E. exact E.
Qed.
End NextSafe.

(** C4 at a cursor whose next document is [{name: "joe", age: "33"}]:
    [nextSafe()] reaches the end of its body and returns no document,
    while [next()] yields the document; on the remote error document
    it throws. *)
Theorem nextSafe_returns_nothing :
  fst (next_gives person cursor0) = Value person /\
  fst (nextSafe doc (string * string) doc_firstElement doc_fieldName
         (next_gives person) cursor0) = Value None /\
  fst (next_gives remote_error cursor0) = Value remote_error /\
  fst (nextSafe doc (string * string) doc_firstElement doc_fieldName
         (next_gives remote_error) cursor0) = Thrown AssertionException.
Proof. repeat split. Qed.

End CursorFacts.

(** ** The replica pair *)
Section PairFacts.
Import Client Samples.

(** The conditional expression is evaluated and dropped: the pair comes
    out of the call as it went in, in every state (so also in the two
    unknown states, where the call is meant to change nothing). *)
Lemma isntMaster_keeps (p : DBClientPaired) :
  isntMaster p = (Value tt, p).
Proof. reflexivity. Qed.

(** C1 at a pair whose master is confirmed left, and at one confirmed
    right: after [isntMaster()] the state is what it was, where the
    claim has unknown-suspect-right and unknown-suspect-left. *)
Theorem isntMaster_does_not_demote :
  master (snd (isntMaster (pair_in Left))) = Left /\
  master (snd (isntMaster (pair_in Left))) <> NotSetR /\
  master (snd (isntMaster (pair_in Right))) = Right /\
  master (snd (isntMaster (pair_in Right))) <> NotSetL.
Proof. repeat split; discriminate. Qed.

End PairFacts.

(** ** Equality and order of endpoints together *)
Section EndpointAlgebra.
Import Libc Sock Samples.

Lemma strcmp_c_str_l (s u : string) : strcmp (c_str s) u = strcmp s u.
Proof.
  revert u. induction s as [|c r IH]; intros u; [reflexivity|].
  cbn [c_str]. destruct (Ascii.eqb_spec c NUL) as [->|Hc].
  - destruct u as [|d q]; cbn [strcmp]; [reflexivity|].
    destruct (Ascii.eqb_spec NUL d) as [<-|Hd]; [reflexivity|].
    change (uchar NUL) with 0. lia.
  - destruct u as [|d q]; cbn [strcmp]; [reflexivity|].
    destruct (Ascii.eqb_spec c d) as [<-|Hcd]; [|reflexivity].
    destruct (Ascii.eqb_spec c NUL) as [E|_]; [contradiction|]. apply IH.
Qed.

Lemma strcmp_same_string_l (s t u : string) :
  strcmp s t = 0 -> strcmp s u = strcmp t u.
Proof.
  intro H. apply strcmp_zero_iff in H.
  rewrite <- (strcmp_c_str_l s u), <- (strcmp_c_str_l t u). now rewrite H.
Qed.

Lemma strcmp_same_string_r (s t u : string) :
  strcmp s t = 0 -> strcmp u s = strcmp u t.
Proof.
  intro H. rewrite (strcmp_flip s u), (strcmp_flip t u).
  now rewrite (strcmp_same_string_l s t u H).
Qed.

Ltac by_cases :=
  repeat match goal with
         | |- context [?a <? ?b] => destruct (Z.ltb_spec a b)
         | |- context [?a >? ?b] =>
             rewrite (Z.gtb_ltb a b); destruct (Z.ltb_spec b a)
         | |- context [?a >=? ?b] =>
             rewrite (Z.geb_leb a b); destruct (Z.leb_spec b a)
         | |- context [?a =? ?b] => destruct (Z.eqb_spec a b)
         end.

(** X2: [==] is transitive; with reflexivity and symmetry it is an
    equivalence on endpoints. *)
Theorem operator_eq_transitive (a b c : SockAddr) :
  operator_eq a b = true -> operator_eq b c = true ->
  operator_eq a c = true.
Proof.
  pose proof (strcmp_same_string_l (sun_path (su a)) (sun_path (su b))
                                   (sun_path (su c))) as Hs.
  unfold operator_eq. by_cases; simpl; intros;
    try reflexivity; try discriminate; try congruence; try lia.
Qed.

Lemma operator_eq_transitive_witness :
  operator_eq (local_socket mem0 "/tmp/mongo.sock")
              (local_socket mem1 "/tmp/mongo.sock") = true.
Proof.
  exact (operator_eq_transitive
           (local_socket mem0 "/tmp/mongo.sock")
           (local_socket mem1 "/tmp/mongo.sock")
           (local_socket mem1 "/tmp/mongo.sock") eq_refl eq_refl).
Defined.

Lemma operator_lt_respects_eq_l (a a' b : SockAddr) :
  operator_eq a a' = true -> operator_lt a b = operator_lt a' b.
Proof.
  pose proof (strcmp_same_string_l (sun_path (su a)) (sun_path (su a'))
                                   (sun_path (su b))) as Hs.
  unfold operator_eq, operator_lt. by_cases; simpl; intros;
    try reflexivity; try discriminate; try congruence; try lia.
Qed.

Lemma operator_lt_respects_eq_r (a a' b : SockAddr) :
  operator_eq a a' = true -> operator_lt b a = operator_lt b a'.
Proof.
  pose proof (strcmp_same_string_r (sun_path (su a)) (sun_path (su a'))
                                   (sun_path (su b))) as Hs.
  unfold operator_eq, operator_lt. by_cases; simpl; intros;
    try reflexivity; try discriminate; try congruence; try lia.
Qed.

(** X3: [<] does not tell equal endpoints apart: replacing an endpoint
    by one that is [==] to it changes no comparison, on either side, and
    two equal endpoints are not ordered. *)
Theorem operator_lt_respects_eq (a a' b : SockAddr) :
  operator_eq a a' = true ->
  operator_lt a b = operator_lt a' b /\
  operator_lt b a = operator_lt b a' /\
  operator_lt a a' = false /\ operator_lt a' a = false.
Proof.
  intro E. split; [|split; [|split]].
  - now apply operator_lt_respects_eq_l.
  - now apply operator_lt_respects_eq_r.
  - rewrite (operator_lt_respects_eq_l a a' a' E). apply operator_lt_irrefl.
  - rewrite (operator_lt_respects_eq_r a a' a' E). apply operator_lt_irrefl.
Qed.

Lemma operator_lt_respects_eq_witness :
  operator_lt (local_socket mem0 "/tmp/a") (local_socket mem0 "/tmp/b")
  = operator_lt (local_socket mem1 "/tmp/a") (local_socket mem0 "/tmp/b") /\
  operator_lt (local_socket mem0 "/tmp/b") (local_socket mem0 "/tmp/a")
  = operator_lt (local_socket mem0 "/tmp/b") (local_socket mem1 "/tmp/a") /\
  operator_lt (local_socket mem0 "/tmp/a") (local_socket mem1 "/tmp/a")
  = false /\
  operator_lt (local_socket mem1 "/tmp/a") (local_socket mem0 "/tmp/a")
  = false.
Proof.
  exact (operator_lt_respects_eq
           (local_socket mem0 "/tmp/a") (local_socket mem1 "/tmp/a")
           (local_socket mem0 "/tmp/b") eq_refl).
Defined.

(** X4: outside the comparison of two networked endpoints the order is
    total.  For two local-domain endpoints, and for two endpoints of
    different families, exactly one of [a < b], [a == b], [b < a] holds;
    with different families the smaller family number decides, so every
    local-domain endpoint is below every networked one. *)
Theorem operator_lt_trichotomy (a b : SockAddr) :
  (family a = AF_UNIX /\ family b = AF_UNIX) \/ family a <> family b ->
  ((operator_lt a b = true /\ operator_eq a b = false /\
    operator_lt b a = false) \/
   (operator_lt a b = false /\ operator_eq a b = true /\
    operator_lt b a = false) \/
   (operator_lt a b = false /\ operator_eq a b = false /\
    operator_lt b a = true)) /\
  (family a < family b -> operator_lt a b = true).
Proof.
  intros H. split.
  - pose proof (strcmp_flip (sun_path (su a)) (sun_path (su b))) as Hf.
    destruct H as [[Ha Hb]|NE].
    + unfold operator_lt, operator_eq. rewrite Ha, Hb. simpl.
      by_cases; try lia; tauto.
    + unfold operator_lt, operator_eq. by_cases; simpl; try lia; tauto.
  - intro Hlt. apply operator_lt_family_first. exact Hlt.
Qed.

Lemma operator_lt_trichotomy_witness :
  ((operator_lt (local_socket mem0 "/tmp/a") (endpoint "10.0.0.1" 80) = true /\
    operator_eq (local_socket mem0 "/tmp/a") (endpoint "10.0.0.1" 80) = false /\
    operator_lt (endpoint "10.0.0.1" 80) (local_socket mem0 "/tmp/a") = false) \/
   (operator_lt (local_socket mem0 "/tmp/a") (endpoint "10.0.0.1" 80) = false /\
    operator_eq (local_socket mem0 "/tmp/a") (endpoint "10.0.0.1" 80) = true /\
    operator_lt (endpoint "10.0.0.1" 80) (local_socket mem0 "/tmp/a") = false) \/
   (operator_lt (local_socket mem0 "/tmp/a") (endpoint "10.0.0.1" 80) = false /\
    operator_eq (local_socket mem0 "/tmp/a") (endpoint "10.0.0.1" 80) = false /\
    operator_lt (endpoint "10.0.0.1" 80) (local_socket mem0 "/tmp/a") = true)) /\
  operator_lt (local_socket mem0 "/tmp/a") (endpoint "10.0.0.1" 80) = true.
Proof.
  assert (family (local_socket mem0 "/tmp/a")
          <> family (endpoint "10.0.0.1" 80)) as NE
    by (vm_compute; discriminate).
  split.
  - exact (proj1 (operator_lt_trichotomy _ _ (or_intror NE))).
  - exact (proj2 (operator_lt_trichotomy _ _ (or_intror NE)) eq_refl).
Defined.

End EndpointAlgebra.

(** ** Texts: decimal numbers and dotted addresses *)
Section TextFacts.
Import Libc.

Lemma append_length (s t : string) :
  String.length (s ++ t)%string = (String.length s + String.length t)%nat.
Proof. induction s as [|c r IH]; simpl; [reflexivity | now rewrite IH]. Qed.

Lemma append_inv_tail (s1 s2 t : string) :
  (s1 ++ t)%string = (s2 ++ t)%string -> s1 = s2.
Proof.
  revert s2. induction s1 as [|c r IH]; intros [|d q] H; simpl in H.
  - reflexivity.
  - apply (f_equal String.length) in H. simpl in H.
    rewrite append_length in H. lia.
  - apply (f_equal String.length) in H. simpl in H.
    rewrite append_length in H. lia.
  - inversion H as [[Hc Hr]]. f_equal. now apply IH.
Qed.

Lemma all_chars_app (p : ascii -> bool) (s t : string) :
  all_chars p (s ++ t)%string = all_chars p s && all_chars p t.
Proof.
  induction s as [|c r IH]; simpl; [reflexivity|].
  rewrite IH. now rewrite andb_assoc.
Qed.

(** Two texts cut at a separator that neither head holds agree on head
    and tail. *)
Lemma split_at_separator (sep : ascii) (s1 s2 t1 t2 : string) :
  all_chars (fun c => negb (Ascii.eqb c sep)) s1 = true ->
  all_chars (fun c => negb (Ascii.eqb c sep)) s2 = true ->
  (s1 ++ String sep t1)%string = (s2 ++ String sep t2)%string ->
  s1 = s2 /\ t1 = t2.
Proof.
  revert s2. induction s1 as [|c r IH]; intros [|d q] H1 H2 E;
    simpl in *.
  - inversion E. split; reflexivity.
  - inversion E as [[Hc Hr]]. subst d.
    rewrite Ascii.eqb_refl in H2. discriminate.
  - inversion E as [[Hc Hr]]. subst c.
    rewrite Ascii.eqb_refl in H1. discriminate.
  - inversion E as [[Hc Hr]]. subst d.
    apply andb_true_iff in H1 as [_ H1]. apply andb_true_iff in H2 as [_ H2].
    destruct (IH q H1 H2 Hr) as [-> ->]. split; reflexivity.
Qed.

Lemma all_chars_weaken (p q : ascii -> bool) (s : string) :
  (forall c, p c = true -> q c = true) ->
  all_chars p s = true -> all_chars q s = true.
Proof.
  intros Hpq. induction s as [|c r IH]; simpl; [reflexivity|].
  intro H. apply andb_true_iff in H as [Hc Hr].
  now rewrite (Hpq c Hc), (IH Hr).
Qed.

Lemma string_of_uint_digits (d : uint) :
  all_chars is_digit (NilEmpty.string_of_uint d) = true.
Proof. induction d; simpl; auto. Qed.

Lemma decimal_digits (n : Z) : all_chars is_digit (decimal n) = true.
Proof. apply string_of_uint_digits. Qed.

Lemma decimal_inj (x y : Z) :
  0 <= x -> 0 <= y -> decimal x = decimal y -> x = y.
Proof.
  unfold decimal. intros Hx Hy E.
  apply (f_equal NilEmpty.uint_of_string) in E.
  rewrite !NilEmpty.usu in E. inversion E as [E'].
  apply (f_equal N.of_uint) in E'. rewrite !DecimalN.Unsigned.of_to in E'.
  apply Z2N.inj; assumption.
Qed.

Lemma decimal_nonempty (n : Z) : decimal n <> EmptyString.
Proof.
  unfold decimal. intro E.
  apply (f_equal NilEmpty.uint_of_string) in E. rewrite NilEmpty.usu in E.
  simpl in E. inversion E as [E'].
  destruct (Z.to_N n) as [|q]; [discriminate|].
  apply (f_equal N.of_uint) in E'. rewrite DecimalN.Unsigned.of_to in E'.
  discriminate.
Qed.

End TextFacts.

Ltac testbits :=
  repeat first
    [ rewrite Z.lor_spec | rewrite Z.land_spec | rewrite testbit_255
    | rewrite testbit_shiftl by lia | rewrite testbit_shiftr by lia
    | rewrite Z.testbit_mod_pow2 by lia ].

Ltac compare_cases :=
  repeat match goal with
         | |- context [?a <=? ?b] => destruct (Z.leb_spec a b)
         | |- context [?a <? ?b] => destruct (Z.ltb_spec a b)
         end;
  try lia; simpl;
  rewrite ?andb_true_r, ?andb_false_r, ?orb_false_r, ?orb_true_r; simpl;
  try reflexivity; try (f_equal; lia).

(** ** [inet_ntoa] and [inet_addr] undo each other *)
Section AddressText.
Import Libc.

Lemma byte_range (x : Z) : 0 <= Z.land x 255 <= 255.
Proof.
  change 255 with (Z.ones 8). rewrite Z.land_ones by lia.
  change (2 ^ 8) with 256. change (Z.ones 8) with 255.
  assert (0 <= x mod 256 < 256) by (apply Z.mod_pos_bound; lia). lia.
Qed.

Lemma small_nat_cases (P : Z -> Prop) :
  (forall k : nat, (k < 256)%nat -> P (Z.of_nat k)) ->
  forall b : Z, 0 <= b <= 255 -> P b.
Proof.
  intros H b Hb. rewrite <- (Z2Nat.id b) by lia. apply H. lia.
Qed.

Lemma inet_aton_number_dot (fuel : nat) (b : Z) (rest : string)
    (parts : list Z) :
  0 <= b <= 255 ->
  inet_aton_from (S fuel) (decimal b ++ String "." rest)%string parts
  = if (2 <? List.length parts)%nat then None
    else inet_aton_from fuel rest (parts ++ [b]).
Proof.
  revert b. apply (small_nat_cases (fun b =>
    inet_aton_from (S fuel) (decimal b ++ String "." rest)%string parts
    = if (2 <? List.length parts)%nat then None
      else inet_aton_from fuel rest (parts ++ [b]))).
  intros k Hk.
  do 256 (destruct k as [|k]; [reflexivity|]). lia.
Qed.

Lemma inet_aton_number_end (fuel : nat) (b : Z) (parts : list Z) :
  0 <= b <= 255 ->
  inet_aton_from (S fuel) (decimal b) parts = last_part parts b.
Proof.
  revert b. apply (small_nat_cases (fun b =>
    inet_aton_from (S fuel) (decimal b) parts = last_part parts b)).
  intros k Hk.
  do 256 (destruct k as [|k]; [reflexivity|]). lia.
Qed.

(** Four turns are enough: with more fuel the loop reads the same. *)
Lemma inet_aton_fuel (fuel : nat) :
  forall (s : string) (parts : list Z),
    (4 <= fuel + List.length parts)%nat ->
    inet_aton_from (S fuel) s parts = inet_aton_from fuel s parts.
Proof.
  induction fuel as [|fuel IH]; intros s parts Hf.
  - cbn [inet_aton_from]. destruct s as [|c r]; [reflexivity|].
    destruct (is_digit c); [|reflexivity].
    destruct (strtoul0 (String c r)) as [val rest].
    destruct (val >? 4294967295); [reflexivity|].
    assert (last_part parts val = None) as Hl.
    { destruct parts as [|a [|b [|d [|e l]]]]; simpl in Hf; try lia.
      reflexivity. }
    destruct rest as [|c' r']; [exact Hl|].
    destruct (Ascii.eqb c' ".").
    + assert ((2 <? List.length parts)%nat = true) as ->
        by (apply Nat.ltb_lt; lia).
      now rewrite orb_true_r.
    + destruct (isspace c'); [exact Hl | reflexivity].
  - cbn [inet_aton_from]. destruct s as [|c r]; [reflexivity|].
    destruct (is_digit c); [|reflexivity].
    destruct (strtoul0 (String c r)) as [val rest].
    destruct (val >? 4294967295); [reflexivity|].
    destruct rest as [|c' r']; [reflexivity|].
    destruct (Ascii.eqb c' "."); [|reflexivity].
    destruct ((val >? 255) || (2 <? List.length parts)%nat); [reflexivity|].
    apply IH. rewrite length_app. simpl. lia.
Qed.

Ltac decide_compare :=
  repeat match goal with
         | |- context [?a <=? ?b] =>
             first [ replace (a <=? b) with true
                       by (symmetry; apply Z.leb_le; lia)
                   | replace (a <=? b) with false
                       by (symmetry; apply Z.leb_gt; lia) ]
         | |- context [?a <? ?b] =>
             first [ replace (a <? b) with true
                       by (symmetry; apply Z.ltb_lt; lia)
                   | replace (a <? b) with false
                       by (symmetry; apply Z.ltb_ge; lia) ]
         end;
  cbn [andb orb];
  rewrite ?andb_true_r, ?andb_false_r, ?orb_false_r, ?orb_true_r;
  cbn [andb orb].

(** The four bytes of a word, written most significant first as
    [inet_aton] joins them, come back in memory order from [htonl]. *)
Lemma htonl_of_bytes (w : Z) :
  htonl (Z.lor (Z.lor (Z.shiftl (Z.land w 255) 24)
                      (Z.shiftl (Z.land (Z.shiftr w 8) 255) 16))
               (Z.lor (Z.shiftl (Z.land (Z.shiftr w 16) 255) 8)
                      (Z.land (Z.shiftr w 24) 255)))
  = w mod 2 ^ 32.
Proof.
  unfold htonl. apply Z.bits_inj'. intros n Hn. testbits.
  destruct (Z.lt_ge_cases n 8); [|destruct (Z.lt_ge_cases n 16);
    [|destruct (Z.lt_ge_cases n 24); [|destruct (Z.lt_ge_cases n 32)]]];
    decide_compare; try reflexivity; try (f_equal; lia).
Qed.

Lemma bytes_join (w : Z) :
  Z.lor (Z.lor (Z.land w 255) (Z.shiftl (Z.land (Z.shiftr w 8) 255) 8))
        (Z.lor (Z.shiftl (Z.land (Z.shiftr w 16) 255) 16)
               (Z.shiftl (Z.land (Z.shiftr w 24) 255) 24))
  = w mod 2 ^ 32.
Proof. apply Z.bits_inj'. intros n Hn. testbits. compare_cases. Qed.

Lemma c_str_without_NUL (s : string) :
  all_chars no_NUL s = true -> c_str s = s.
Proof.
  induction s as [|c r IH]; simpl; [reflexivity|].
  intro H. apply andb_true_iff in H as [Hc Hr].
  unfold no_NUL in Hc. apply negb_true_iff in Hc. rewrite Hc.
  now rewrite (IH Hr).
Qed.

Lemma inet_ntoa_chars (w : Z) : all_chars address_char (inet_ntoa w) = true.
Proof.
  assert (forall n, all_chars address_char (decimal n) = true) as Hd.
  { intro n. apply (all_chars_weaken is_digit); [|apply decimal_digits].
    intros c Hc. unfold address_char. now rewrite Hc. }
  unfold inet_ntoa. rewrite !all_chars_app, !Hd. reflexivity.
Qed.

Lemma address_char_cases (c : ascii) :
  address_char c = true ->
  no_NUL c = true /\ negb (Ascii.eqb c ":") = true /\
  negb (Ascii.eqb c " ") = true.
Proof.
  unfold address_char, is_digit, digit_of, no_NUL.
  destruct (Ascii.eqb_spec c ".") as [->|_]; [intros _; repeat split|].
  rewrite orb_false_r.
  destruct (Ascii.eqb_spec c NUL) as [->|_]; [discriminate|].
  destruct (Ascii.eqb_spec c ":") as [->|_]; [discriminate|].
  destruct (Ascii.eqb_spec c " ") as [->|_]; [discriminate|].
  intros _. repeat split.
Qed.

(** The text [inet_ntoa] writes for a 32-bit address is read back by
    [inet_addr] as that address. *)
Lemma inet_addr_inet_ntoa (w : Z) :
  inet_addr (inet_ntoa w) = w mod 2 ^ 32.
Proof.
  unfold inet_addr.
  rewrite c_str_without_NUL.
  2:{ apply (all_chars_weaken address_char); [|apply inet_ntoa_chars].
      intros c Hc. apply address_char_cases in Hc. tauto. }
  unfold inet_ntoa, inet_aton. cbn [append].
  rewrite !inet_aton_number_dot, inet_aton_number_end by apply byte_range.
  cbv [List.app List.length Nat.ltb Nat.leb last_part].
  assert ((Z.land (Z.shiftr w 24) 255 >? 255) = false) as ->.
  { pose proof (byte_range (Z.shiftr w 24)). rewrite Z.gtb_ltb.
    apply Z.ltb_ge. lia. }
  apply htonl_of_bytes.
Qed.

Lemma inet_ntoa_inj (v w : Z) :
  0 <= v < 2 ^ 32 -> 0 <= w < 2 ^ 32 ->
  inet_ntoa v = inet_ntoa w -> v = w.
Proof.
  intros Hv Hw E. apply (f_equal inet_addr) in E.
  rewrite !inet_addr_inet_ntoa in E.
  rewrite !Z.mod_small in E by assumption. exact E.
Qed.

End AddressText.

(** ** Endpoints as the constructors leave them *)
Section ConstructedEndpoints.
Import Libc Sock Udp Samples.

Lemma substring_0_empty (n : nat) : substring 0 n EmptyString = EmptyString.
Proof. destruct n; reflexivity. Qed.

Lemma c_str_strncpy_NUL (n : nat) :
  c_str (strncpy EmptyString n) = EmptyString.
Proof. destruct n; reflexivity. Qed.

Lemma c_str_strncpy (src : string) (n : nat) :
  c_str (strncpy src n) = substring 0 n (c_str src).
Proof.
  revert src. induction n as [|n IH]; intros src.
  - cbn [strncpy c_str]. destruct (c_str src); reflexivity.
  - destruct src as [|c r]; [reflexivity|].
    cbn [strncpy c_str]. destruct (Ascii.eqb_spec c NUL) as [->|Hc].
    + reflexivity.
    + cbn [c_str substring].
      destruct (Ascii.eqb_spec c NUL) as [E|_]; [contradiction|].
      now rewrite IH.
Qed.

Lemma substring_0_all (s : string) (n : nat) :
  (String.length s <= n)%nat -> substring 0 n s = s.
Proof.
  revert n. induction s as [|c r IH]; intros n H.
  - apply substring_0_empty.
  - destruct n as [|n]; simpl in H; [lia|].
    cbn [substring]. rewrite IH by lia. reflexivity.
Qed.

Lemma substring_0_length (s : string) (n : nat) :
  (n <= String.length s)%nat -> String.length (substring 0 n s) = n.
Proof.
  revert n. induction s as [|c r IH]; intros n H.
  - simpl in H. assert (n = 0%nat) as -> by lia. reflexivity.
  - destruct n as [|n]; [reflexivity|].
    simpl in H. cbn [substring String.length]. rewrite IH by lia.
    reflexivity.
Qed.

Lemma short_equals_cut (x y : string) (n : nat) :
  (String.length x < n)%nat -> (x = substring 0 n y <-> x = y).
Proof.
  intro Hx. destruct (Nat.le_gt_cases n (String.length y)) as [Hy|Hy].
  - split; intro E; exfalso.
    + apply (f_equal String.length) in E.
      rewrite substring_0_length in E by assumption. lia.
    + apply (f_equal String.length) in E. lia.
  - rewrite substring_0_all by lia. reflexivity.
Qed.

(** X5: two local-domain endpoints built from the paths [s] and [t], of
    which at least one is shorter than the [sun_path] buffer, are equal
    exactly when the paths are equal, whatever memory they are built in
    and whatever the resolver; so a path shorter than the buffer never
    gives the endpoint of a longer one. *)
Theorem operator_eq_local_constructed
    (h1 h2 : string -> string) (m1 m2 : SockAddr) (s t : string) :
  (strlen s < sizeof_sun_path)%nat \/ (strlen t < sizeof_sun_path)%nat ->
  (operator_eq (SockAddr_of_host h1 m1 s 0) (SockAddr_of_host h2 m2 t 0)
   = true
   <-> c_str s = c_str t).
Proof.
  intro Hshort.
  change (operator_eq (SockAddr_of_host h1 m1 s 0)
                      (SockAddr_of_host h2 m2 t 0))
    with (strcmp (strncpy s sizeof_sun_path) (strncpy t sizeof_sun_path)
          =? 0).
  rewrite Z.eqb_eq, strcmp_zero_iff, !c_str_strncpy.
  unfold strlen in Hshort. destruct Hshort as [Hs|Ht].
  - rewrite (substring_0_all (c_str s)) by lia.
    now apply short_equals_cut.
  - rewrite (substring_0_all (c_str t)) by lia.
    split; intro E; symmetry; [symmetry in E|symmetry in E];
      now apply (short_equals_cut (c_str t) (c_str s) sizeof_sun_path).
Qed.

Lemma operator_eq_local_constructed_witness :
  (operator_eq (SockAddr_of_host resolve_ip mem0 "/tmp/a" 0)
               (SockAddr_of_host resolve_ip mem1 long_path_b 0) = true
   <-> c_str "/tmp/a" = c_str long_path_b) /\
  (operator_eq (SockAddr_of_host resolve_ip mem0 "/tmp/a" 0)
               (SockAddr_of_host resolve_ip mem1 "/tmp/a" 0) = true
   <-> c_str "/tmp/a" = c_str "/tmp/a").
Proof.
  split.
  - apply (operator_eq_local_constructed
             resolve_ip resolve_ip mem0 mem1 "/tmp/a" long_path_b).
    left. vm_compute. lia.
  - apply (operator_eq_local_constructed
             resolve_ip resolve_ip mem0 mem1 "/tmp/a" "/tmp/a").
    right. vm_compute. lia.
Defined.

Example short_path_differs_from_long :
  operator_eq (local_socket mem0 "/tmp/a") (local_socket mem1 long_path)
  = false /\
  operator_eq (local_socket mem0 "/tmp/a") (local_socket mem1 "/tmp/a")
  = true.
Proof. split; reflexivity. Qed.

Ltac by_family :=
  unfold operator_eq, operator_lt, isLocalHost, localhost, getPort,
    toString, getSockAddr;
  cbn [family si su addressSize];
  repeat match goal with
         | |- context [?a <? ?b] => destruct (Z.ltb_spec a b)
         | |- context [?a >? ?b] =>
             rewrite (Z.gtb_ltb a b); destruct (Z.ltb_spec b a)
         | |- context [?a =? ?b] => destruct (Z.eqb_spec a b)
         end;
  simpl; try reflexivity; try lia; try congruence.

Lemma same_view_networked (f : Z) (i : sockaddr_in) (u1 u2 : sockaddr_un)
    (n : Z) :
  f <> AF_UNIX ->
  same_view {| family := f; si := i; su := u1; addressSize := n |}
            {| family := f; si := i; su := u2; addressSize := n |}.
Proof.
  intro Hf. unfold same_view.
  split; [intro r; repeat split; by_family | repeat split; by_family].
Qed.

Lemma same_view_local (i1 i2 : sockaddr_in) (u : sockaddr_un) (n : Z) :
  same_view {| family := AF_UNIX; si := i1; su := u; addressSize := n |}
            {| family := AF_UNIX; si := i2; su := u; addressSize := n |}.
Proof.
  unfold same_view.
  split; [intro r; repeat split; by_family | repeat split; by_family].
Qed.

(** X6: a networked endpoint made by any of the three constructors,
    and a local-domain endpoint made from a path shorter than the
    [sun_path] buffer, looks the same to every member function whatever
    lay in its memory before: comparisons with any other endpoint, the
    loopback tests, the port, the text and what [getSockAddr] points to
    never read a member the constructor left unset.  (A path that fills
    the buffer leaves no terminator, and the string is then read past
    the array: nothing is stated for it.) *)
Theorem constructed_endpoints_ignore_memory
    (hostbyname : string -> string) (m1 m2 : SockAddr) :
  same_view (SockAddr_default m1) (SockAddr_default m2) /\
  (forall sourcePort : Z,
      same_view (SockAddr_of_port m1 sourcePort)
                (SockAddr_of_port m2 sourcePort)) /\
  (forall (iporhost : string) (port : Z),
      port <> 0 \/ (strlen iporhost < sizeof_sun_path)%nat ->
      same_view (SockAddr_of_host hostbyname m1 iporhost port)
                (SockAddr_of_host hostbyname m2 iporhost port)).
Proof.
  split; [|split].
  - apply same_view_networked. discriminate.
  - intro p. apply same_view_networked. discriminate.
  - intros s p _. unfold SockAddr_of_host. destruct (p =? 0).
    + apply same_view_local.
    + apply same_view_networked. discriminate.
Qed.

Lemma constructed_endpoints_ignore_memory_witness :
  same_view (SockAddr_of_host resolve_ip mem0 "/tmp/mongo.sock" 0)
            (SockAddr_of_host resolve_ip mem1 "/tmp/mongo.sock" 0) /\
  same_view (SockAddr_of_host resolve_ip mem0 "10.0.0.1" 27017)
            (SockAddr_of_host resolve_ip mem1 "10.0.0.1" 27017).
Proof.
  split.
  - apply (proj2 (proj2 (constructed_endpoints_ignore_memory
                           resolve_ip mem0 mem1)) "/tmp/mongo.sock" 0).
    right. vm_compute. lia.
  - apply (proj2 (proj2 (constructed_endpoints_ignore_memory
                           resolve_ip mem0 mem1)) "10.0.0.1" 27017).
    left. lia.
Defined.

End ConstructedEndpoints.

(** ** The values the constructors store *)
Section ConstructedValues.
Import Libc Sock Udp Samples.

Lemma lor_bound (n a b : Z) :
  0 <= n -> 0 <= a < 2 ^ n -> 0 <= b < 2 ^ n -> 0 <= Z.lor a b < 2 ^ n.
Proof.
  intros Hn Ha Hb.
  assert (Z.lor a b = (Z.lor a b) mod 2 ^ n) as ->.
  { rewrite <- (Z.mod_small a (2 ^ n)) at 1 by assumption.
    rewrite <- (Z.mod_small b (2 ^ n)) at 1 by assumption.
    apply Z.bits_inj'. intros i Hi.
    rewrite Z.lor_spec, !Z.testbit_mod_pow2, Z.lor_spec by assumption.
    destruct (i <? n); reflexivity. }
  apply Z.mod_pos_bound. lia.
Qed.

Lemma htons_range (x : Z) : 0 <= htons x < 2 ^ 16.
Proof.
  unfold htons. apply lor_bound; [lia| |].
  - pose proof (byte_range x). rewrite Z.shiftl_mul_pow2 by lia.
    change (2 ^ 8) with 256. change (2 ^ 16) with 65536. lia.
  - pose proof (byte_range (Z.shiftr x 8)).
    change (2 ^ 16) with 65536. lia.
Qed.

Lemma htons_htons (x : Z) : 0 <= x < 2 ^ 16 -> htons (htons x) = x.
Proof.
  intro Hx. rewrite <- (Z.mod_small x (2 ^ 16)) at 2 by assumption.
  apply ntohs_htons.
Qed.

Lemma htons_inj (x y : Z) :
  0 <= x < 2 ^ 16 -> 0 <= y < 2 ^ 16 -> htons x = htons y -> x = y.
Proof.
  intros Hx Hy E. rewrite <- (htons_htons x Hx), <- (htons_htons y Hy).
  now rewrite E.
Qed.

Lemma htonl_range (x : Z) : 0 <= htonl x < 2 ^ 32.
Proof.
  unfold htonl.
  pose proof (byte_range x). pose proof (byte_range (Z.shiftr x 8)).
  pose proof (byte_range (Z.shiftr x 16)).
  pose proof (byte_range (Z.shiftr x 24)).
  repeat apply lor_bound; try lia;
    rewrite ?Z.shiftl_mul_pow2 by lia;
    change (2 ^ 8) with 256; change (2 ^ 16) with 65536;
    change (2 ^ 24) with 16777216; change (2 ^ 32) with 4294967296; lia.
Qed.

Lemma inet_addr_range (cp : string) : 0 <= inet_addr cp < 2 ^ 32.
Proof.
  unfold inet_addr. destruct (inet_aton (c_str cp)) as [h|].
  - apply htonl_range.
  - unfold INADDR_NONE. lia.
Qed.

(** X7: what the constructors leave is well formed.  [SockAddr(int)]
    and [SockAddr(const char*, int)] give an endpoint of one of the two
    families, with a 32-bit address and a 16-bit port when networked;
    the struct [getSockAddr] points to carries the same family and
    [addressSize] is its size; a local-domain path fills exactly the
    [sun_path] buffer.  [SockAddr()] gives a networked endpoint with
    [addressSize] set, but its zeroed [si] names family 0, not
    [AF_INET]. *)
Theorem constructors_give_valid_endpoints
    (hostbyname : string -> string) (mem : SockAddr) :
  (forall sourcePort : Z,
      valid (SockAddr_of_port mem sourcePort) /\
      self_described (SockAddr_of_port mem sourcePort)) /\
  (forall (iporhost : string) (port : Z),
      valid (SockAddr_of_host hostbyname mem iporhost port) /\
      self_described (SockAddr_of_host hostbyname mem iporhost port)) /\
  (forall iporhost : string,
      String.length
        (sun_path (su (SockAddr_of_host hostbyname mem iporhost 0)))
      = sizeof_sun_path) /\
  (valid (SockAddr_default mem) /\
   addressSize (SockAddr_default mem) = sizeof_sockaddr_in /\
   sin_family (si (SockAddr_default mem)) = 0 /\
   ~ self_described (SockAddr_default mem)).
Proof.
  split; [|split; [|split]].
  - intro p. split.
    + right. cbn [SockAddr_of_port family si sin_addr s_addr sin_port].
      split; [reflexivity|]. split; [|apply htons_range].
      rewrite htonl_INADDR_ANY. unfold INADDR_ANY. lia.
    + unfold self_described. split; reflexivity.
  - intros s p. unfold SockAddr_of_host. split.
    + destruct (p =? 0); [left; reflexivity|].
      right. cbn [family si sin_addr s_addr sin_port].
      split; [reflexivity|].
      split; [apply inet_addr_range | apply htons_range].
    + destruct (p =? 0); unfold self_described; split; reflexivity.
  - intro s.
    change (String.length (strncpy s sizeof_sun_path) = sizeof_sun_path).
    apply strncpy_length.
  - split; [|split; [|split]]; try reflexivity.
    + right. cbn. repeat split; lia.
    + unfold self_described. cbn. intros [H _]. discriminate H.
Qed.

End ConstructedValues.

(** ** The text of an endpoint *)
Section EndpointText.
Import Libc Sock Udp Samples.

Lemma toString_local (a : SockAddr) :
  family a = AF_UNIX ->
  toString a = (path a ++ " (unix domain socket)")%string.
Proof. intro H. unfold toString, path. now rewrite H. Qed.

Lemma toString_networked (a : SockAddr) :
  family a = AF_INET ->
  toString a
  = (inet_ntoa (s_addr (sin_addr (si a))) ++
     String ":" (decimal (ntohs (sin_port (si a)))))%string.
Proof. intro H. unfold toString. now rewrite H. Qed.

Lemma is_digit_cases (c : ascii) :
  is_digit c = true ->
  negb (Ascii.eqb c " ") = true /\ negb (Ascii.eqb c ":") = true.
Proof.
  unfold is_digit, digit_of.
  destruct (Ascii.eqb_spec c " ") as [->|_]; [discriminate|].
  destruct (Ascii.eqb_spec c ":") as [->|_]; [discriminate|].
  intros _. split; reflexivity.
Qed.

Lemma networked_text_no_space (w p : Z) :
  all_chars (not_char " ")
            (inet_ntoa w ++ String ":" (decimal p))%string = true.
Proof.
  rewrite all_chars_app. cbn [all_chars].
  rewrite (all_chars_weaken address_char (not_char " ") (inet_ntoa w)).
  - rewrite (all_chars_weaken is_digit (not_char " ") (decimal p)).
    + reflexivity.
    + intros c Hc. apply is_digit_cases in Hc. unfold not_char. tauto.
    + apply decimal_digits.
  - intros c Hc. apply address_char_cases in Hc. unfold not_char. tauto.
  - apply inet_ntoa_chars.
Qed.

Lemma local_text_has_space (s : string) :
  all_chars (not_char " ") (s ++ " (unix domain socket)")%string = false.
Proof. rewrite all_chars_app. cbn. apply andb_false_r. Qed.

Lemma inet_ntoa_no_colon (w : Z) :
  all_chars (fun c => negb (Ascii.eqb c ":")) (inet_ntoa w) = true.
Proof.
  apply (all_chars_weaken address_char); [|apply inet_ntoa_chars].
  intros c Hc. apply address_char_cases in Hc. tauto.
Qed.

(** X8: the text of an endpoint identifies it up to [==].  For two well
    formed endpoints [toString] gives the same text exactly when [==]
    holds: a local-domain and a networked endpoint never print alike,
    and two networked ones print alike only with the same address and
    port. *)
Theorem toString_tells_endpoints_apart (a b : SockAddr) :
  valid a -> valid b ->
  (toString a = toString b <-> operator_eq a b = true).
Proof.
  intros [Ha|[Ha [Haddr Hport]]] [Hb|[Hb [Haddr' Hport']]].
  - rewrite (toString_local a Ha), (toString_local b Hb).
    unfold operator_eq, path. rewrite Ha, Hb. simpl.
    rewrite Z.eqb_eq, strcmp_zero_iff.
    split; [apply append_inv_tail | now intros ->].
  - rewrite (toString_local a Ha), (toString_networked b Hb).
    rewrite (operator_eq_cross_family a b) by (rewrite Ha, Hb; discriminate).
    split; [|discriminate]. intro E. exfalso.
    apply (f_equal (all_chars (not_char " "))) in E.
    rewrite local_text_has_space, networked_text_no_space in E.
    discriminate.
  - rewrite (toString_networked a Ha), (toString_local b Hb).
    rewrite (operator_eq_cross_family a b) by (rewrite Ha, Hb; discriminate).
    split; [|discriminate]. intro E. exfalso.
    apply (f_equal (all_chars (not_char " "))) in E.
    rewrite local_text_has_space, networked_text_no_space in E.
    discriminate.
  - rewrite (toString_networked a Ha), (toString_networked b Hb).
    unfold operator_eq. rewrite Ha, Hb. simpl.
    rewrite andb_true_iff, !Z.eqb_eq. split.
    + intro E.
      apply split_at_separator in E; try apply inet_ntoa_no_colon.
      destruct E as [E1 E2]. split.
      * now apply inet_ntoa_inj.
      * apply decimal_inj in E2; try apply htons_range.
        now apply htons_inj.
    + intros [-> ->]. reflexivity.
Qed.

Lemma toString_tells_endpoints_apart_witness :
  (toString (endpoint "10.0.0.1" 80) = toString (endpoint "10.0.0.1" 80)
   <-> operator_eq (endpoint "10.0.0.1" 80) (endpoint "10.0.0.1" 80) = true)
  /\
  (toString (local_socket mem0 "/tmp/a") = toString (endpoint "10.0.0.1" 80)
   <-> operator_eq (local_socket mem0 "/tmp/a") (endpoint "10.0.0.1" 80)
       = true).
Proof.
  assert (valid (endpoint "10.0.0.1" 80)) as Hn
    by (right; vm_compute; repeat split; discriminate).
  assert (valid (local_socket mem0 "/tmp/a")) as Hl
    by (left; reflexivity).
  split.
  - exact (toString_tells_endpoints_apart _ _ Hn Hn).
  - exact (toString_tells_endpoints_apart _ _ Hl Hn).
Defined.

Example toString_runs :
  toString (endpoint "10.0.0.1" 27017) = "10.0.0.1:27017" /\
  toString (local_socket mem1 "/tmp/mongo.sock")
  = "/tmp/mongo.sock (unix domain socket)" /\
  toString (SockAddr_of_port mem1 27017) = "0.0.0.0:27017".
Proof. repeat split. Qed.

(** X9: an endpoint prints what it was built from.  A listener on a
    16-bit port prints as [0.0.0.0:port]; a local-domain endpoint built
    from a path shorter than the buffer prints the path followed by
    [ (unix domain socket)]; a networked endpoint whose host resolves to
    the text of a 32-bit address prints that text, a colon and the
    port. *)
Theorem toString_of_constructed
    (hostbyname : string -> string) (mem : SockAddr) :
  (forall sourcePort : Z,
      0 <= sourcePort < 2 ^ 16 ->
      toString (SockAddr_of_port mem sourcePort)
      = ("0.0.0.0:" ++ decimal sourcePort)%string) /\
  (forall iporhost : string,
      (strlen iporhost < sizeof_sun_path)%nat ->
      toString (SockAddr_of_host hostbyname mem iporhost 0)
      = (c_str iporhost ++ " (unix domain socket)")%string) /\
  (forall (iporhost : string) (w port : Z),
      hostbyname iporhost = inet_ntoa w ->
      0 <= w < 2 ^ 32 -> 0 < port < 2 ^ 16 ->
      toString (SockAddr_of_host hostbyname mem iporhost port)
      = (inet_ntoa w ++ ":" ++ decimal port)%string).
Proof.
  split; [|split].
  - intros p Hp. unfold toString. cbn [SockAddr_of_port family si sin_port
      sin_addr s_addr]. change (AF_INET =? AF_UNIX) with false. cbv iota.
    change (ntohs (htons p)) with (htons (htons p)).
    rewrite htons_htons by assumption. reflexivity.
  - intros s Hs.
    change (toString (SockAddr_of_host hostbyname mem s 0))
      with (c_str (strncpy s sizeof_sun_path)
            ++ " (unix domain socket)")%string.
    now rewrite strncpy_c_str.
  - intros s w p Hw Hwr Hp. unfold SockAddr_of_host.
    destruct (Z.eqb_spec p 0) as [E|_]; [lia|].
    unfold toString. cbn [family si sin_port sin_addr s_addr].
    change (AF_INET =? AF_UNIX) with false. cbv iota.
    rewrite Hw, inet_addr_inet_ntoa, Z.mod_small by assumption.
    change (ntohs (htons p)) with (htons (htons p)).
    rewrite htons_htons by lia. reflexivity.
Qed.

Lemma toString_of_constructed_witness :
  toString (SockAddr_of_port mem1 27017)
  = ("0.0.0.0:" ++ decimal 27017)%string /\
  toString (SockAddr_of_host resolve_ip mem1 "/tmp/mongo.sock" 0)
  = (c_str "/tmp/mongo.sock" ++ " (unix domain socket)")%string /\
  toString (SockAddr_of_host resolve_ip mem1 (inet_ntoa 0x100007f) 27017)
  = (inet_ntoa 0x100007f ++ ":" ++ decimal 27017)%string.
Proof.
  split; [|split].
  - apply (proj1 (toString_of_constructed resolve_ip mem1) 27017). lia.
  - apply (proj1 (proj2 (toString_of_constructed resolve_ip mem1))
             "/tmp/mongo.sock").
    vm_compute. lia.
  - apply (proj2 (proj2 (toString_of_constructed resolve_ip mem1))
             (inet_ntoa 0x100007f) 0x100007f 27017); [reflexivity|lia|lia].
Defined.

(** X10: a host that does not resolve raises nothing.  When the
    resolver answers with the empty string and the port is not 0, the
    constructor stores [INADDR_NONE]: the endpoint is networked, is not
    the local host, prints as [255.255.255.255:port], and equals every
    other unresolved endpoint on the same port. *)
Theorem unresolved_host_endpoint
    (hostbyname : string -> string) (mem : SockAddr)
    (iporhost : string) (port : Z) :
  hostbyname iporhost = EmptyString -> port <> 0 ->
  let a := SockAddr_of_host hostbyname mem iporhost port in
  family a = AF_INET /\
  s_addr (sin_addr (si a)) = INADDR_NONE /\
  isLocalHost a = false /\
  toString a = ("255.255.255.255:" ++ decimal (port mod 2 ^ 16))%string /\
  (forall (mem' : SockAddr) (other : string),
      hostbyname other = EmptyString ->
      operator_eq a (SockAddr_of_host hostbyname mem' other port) = true).
Proof.
  intros Hh Hp a. subst a. unfold SockAddr_of_host.
  apply Z.eqb_neq in Hp. rewrite Hp, Hh.
  split; [reflexivity|]. split; [reflexivity|]. split; [reflexivity|].
  split.
  - unfold toString. cbn [family si sin_port sin_addr s_addr].
    change (AF_INET =? AF_UNIX) with false. cbv iota.
    rewrite ntohs_htons. reflexivity.
  - intros mem' other Ho. rewrite Ho. unfold operator_eq.
    cbn [family si sin_port sin_addr s_addr]. simpl.
    now rewrite !Z.eqb_refl.
Qed.

Lemma unresolved_host_endpoint_witness :
  family (SockAddr_of_host resolve_nothing mem0 "db1.example" 27017)
  = AF_INET /\
  s_addr (sin_addr (si (SockAddr_of_host resolve_nothing mem0
                                         "db1.example" 27017)))
  = INADDR_NONE /\
  isLocalHost (SockAddr_of_host resolve_nothing mem0 "db1.example" 27017)
  = false /\
  toString (SockAddr_of_host resolve_nothing mem0 "db1.example" 27017)
  = ("255.255.255.255:" ++ decimal (27017 mod 2 ^ 16))%string /\
  (forall (mem' : SockAddr) (other : string),
      resolve_nothing other = EmptyString ->
      operator_eq (SockAddr_of_host resolve_nothing mem0 "db1.example" 27017)
                  (SockAddr_of_host resolve_nothing mem' other 27017)
      = true).
Proof.
  apply (unresolved_host_endpoint resolve_nothing mem0 "db1.example" 27017).
  - reflexivity.
  - lia.
Defined.
End EndpointText.

(** ** Port and datagram size of an endpoint *)
Section PortAndMtu.
Import Libc Sock Udp Samples.

Lemma htons_arith (x : Z) :
  htons x = (x mod 256) * 256 + (x / 256) mod 256.
Proof.
  unfold htons.
  rewrite <- Z.lxor_lor, <- Z.add_nocarry_lxor.
  - change 255 with (Z.ones 8). rewrite !Z.land_ones by lia.
    rewrite Z.shiftl_mul_pow2, Z.shiftr_div_pow2 by lia. reflexivity.
  - apply Z.bits_inj'. intros n Hn. rewrite Z.bits_0. testbits.
    destruct (Z.leb_spec 8 n); destruct (Z.ltb_spec n 8); try lia;
      rewrite ?andb_false_r, ?andb_false_l; reflexivity.
  - apply Z.bits_inj'. intros n Hn. rewrite Z.bits_0. testbits.
    destruct (Z.leb_spec 8 n); destruct (Z.ltb_spec n 8); try lia;
      rewrite ?andb_false_r, ?andb_false_l; reflexivity.
Qed.

(** X11: [getPort] hands out the port as stored, in network byte
    order.  It is 0 for a local-domain endpoint; for an endpoint built
    on a 16-bit port it is [htons(port)], from which [ntohs] gives the
    port back, and it is the port itself only when the port's two bytes
    are equal.  Both networked constructors store the port alike. *)
Theorem getPort_network_order
    (hostbyname : string -> string) (mem : SockAddr) :
  (forall iporhost : string,
      getPort (SockAddr_of_host hostbyname mem iporhost 0) = 0) /\
  (forall port : Z,
      0 <= port < 2 ^ 16 ->
      getPort (SockAddr_of_port mem port) = htons port /\
      ntohs (getPort (SockAddr_of_port mem port)) = port /\
      (getPort (SockAddr_of_port mem port) = port
       <-> port / 256 = port mod 256)) /\
  (forall (iporhost : string) (port : Z),
      0 < port < 2 ^ 16 ->
      getPort (SockAddr_of_host hostbyname mem iporhost port)
      = getPort (SockAddr_of_port mem port)).
Proof.
  split; [|split].
  - intro s. reflexivity.
  - intros p Hp.
    change (getPort (SockAddr_of_port mem p)) with (htons p).
    split; [reflexivity|]. split.
    + apply htons_htons. assumption.
    + rewrite htons_arith. change (2 ^ 16) with 65536 in Hp.
      pose proof (Z.div_mod p 256 ltac:(lia)) as Hdm.
      pose proof (Z.mod_pos_bound p 256 ltac:(lia)) as Hm.
      assert (0 <= p / 256 < 256) as Hq
        by (split; [apply Z.div_pos; lia | apply Z.div_lt_upper_bound; lia]).
      rewrite (Z.mod_small (p / 256) 256) by assumption. lia.
  - intros s p Hp. unfold SockAddr_of_host.
    destruct (Z.eqb_spec p 0) as [E|_]; [lia|]. reflexivity.
Qed.

Lemma getPort_network_order_witness :
  getPort (SockAddr_of_port mem0 27017) = htons 27017 /\
  ntohs (getPort (SockAddr_of_port mem0 27017)) = 27017 /\
  (getPort (SockAddr_of_port mem0 27017) = 27017
   <-> 27017 / 256 = 27017 mod 256).
Proof.
  apply (proj1 (proj2 (getPort_network_order resolve_ip mem0)) 27017). lia.
Defined.

Example getPort_runs :
  getPort (SockAddr_of_port mem0 27017) = 35177 /\
  getPort (SockAddr_of_port mem0 257) = 257.
Proof. split; reflexivity. Qed.

(** X12: [mtu] is [MaxMTU] exactly for a local host endpoint and 1480
    otherwise, so never above [MaxMTU].  A listener endpoint and the
    default endpoint always get 1480, a local-domain endpoint always
    [MaxMTU], and an endpoint built from a host and a port gets [MaxMTU]
    exactly when the host resolves to 127.0.0.1. *)
Theorem mtu_of_endpoints (hostbyname : string -> string) (mem : SockAddr) :
  (forall a : SockAddr,
      (mtu a = MaxMTU <-> isLocalHost a = true) /\
      (mtu a = 1480 <-> isLocalHost a = false) /\
      mtu a <= MaxMTU) /\
  (forall sourcePort : Z, mtu (SockAddr_of_port mem sourcePort) = 1480) /\
  mtu (SockAddr_default mem) = 1480 /\
  (forall iporhost : string,
      mtu (SockAddr_of_host hostbyname mem iporhost 0) = MaxMTU) /\
  (forall (iporhost : string) (port : Z),
      port <> 0 ->
      (mtu (SockAddr_of_host hostbyname mem iporhost port) = MaxMTU
       <-> inet_addr (hostbyname iporhost) = inet_addr "127.0.0.1")).
Proof.
  split; [|split; [|split; [|split]]].
  - intro a. unfold mtu, MaxMTU. destruct (isLocalHost a); repeat split;
      try reflexivity; try discriminate; try lia.
  - intro p. reflexivity.
  - reflexivity.
  - intro s. reflexivity.
  - intros s p Hp. unfold SockAddr_of_host. apply Z.eqb_neq in Hp.
    rewrite Hp. unfold mtu, isLocalHost, MaxMTU.
    cbn [family si sin_addr s_addr]. change (AF_INET =? AF_UNIX) with false.
    cbv iota. rewrite inet_addr_loopback.
    destruct (Z.eqb_spec (inet_addr (hostbyname s)) 16777343) as [E|NE].
    + split; [intros _; exact E | reflexivity].
    + split; [discriminate | intro E; contradiction].
Qed.

Lemma mtu_of_endpoints_witness :
  (mtu (endpoint "127.0.0.1" 27017) = MaxMTU
   <-> inet_addr (resolve_ip "127.0.0.1") = inet_addr "127.0.0.1") /\
  (mtu (endpoint "10.0.0.1" 27017) = MaxMTU
   <-> inet_addr (resolve_ip "10.0.0.1") = inet_addr "127.0.0.1").
Proof.
  split.
  - apply (proj2 (proj2 (proj2 (proj2 (mtu_of_endpoints resolve_ip mem0))))
             "127.0.0.1" 27017). lia.
  - apply (proj2 (proj2 (proj2 (proj2 (mtu_of_endpoints resolve_ip mem0))))
             "10.0.0.1" 27017). lia.
Defined.

End PortAndMtu.

(** ** Option bits, [nextSafe] and the datagram socket *)
Section OptionBits.
Import Libc Client Samples.

Lemma tailable_bit (c : DBClientCursor) :
  fst (tailable c) = Value (Z.testbit (opts c) 1).
Proof.
  unfold tailable, const_method, Option_CursorTailable. cbn [fst].
  rewrite land_2. destruct (Z.testbit (opts c) 1); reflexivity.
Qed.

(** X13: how the option bits combine.  [Option_ALLMASK] is the two
    options together and they share no bit; a cursor whose options
    include [Option_CursorTailable] is tailable whatever else is set;
    adding [Option_SlaveOk] or masking with [Option_ALLMASK] leaves
    [tailable()] as it was; keeping only [Option_SlaveOk] is never
    tailable. *)
Theorem tailable_under_option_changes (c c' : DBClientCursor) :
  Option_ALLMASK = Z.lor Option_CursorTailable Option_SlaveOk /\
  Z.land Option_CursorTailable Option_SlaveOk = 0 /\
  (opts c' = Z.lor (opts c) Option_CursorTailable ->
   fst (tailable c') = Value true) /\
  (opts c' = Z.lor (opts c) Option_SlaveOk ->
   fst (tailable c') = fst (tailable c)) /\
  (opts c' = Z.land (opts c) Option_ALLMASK ->
   fst (tailable c') = fst (tailable c)) /\
  (opts c' = Z.land (opts c) Option_SlaveOk ->
   fst (tailable c') = Value false).
Proof.
  split; [reflexivity|]. split; [reflexivity|].
  rewrite !tailable_bit.
  unfold Option_CursorTailable, Option_SlaveOk, Option_ALLMASK.
  repeat split; intros ->;
    rewrite ?Z.lor_spec, ?Z.land_spec; simpl;
    rewrite ?orb_true_r, ?orb_false_r, ?andb_true_r, ?andb_false_r;
    reflexivity.
Qed.
End OptionBits.

Section NextSafeFacts.
Import Libc Client Samples.
Variables JSObj Element : Type.
Variable firstElement : JSObj -> Element.
Variable fieldName : Element -> string.
Variable next : method DBClientCursor JSObj.

(** X14: the two outcomes of [nextSafe()] that C++ defines.  An
    exception thrown by [next()] is passed on unchanged, and a document
    whose first field has the name [$err] makes the [assert] throw
    [AssertionException]; either way the cursor is left as [next()] left
    it.  (For any other document the body runs off its end, where the
    behaviour is undefined: nothing is stated for it.) *)
Theorem nextSafe_follows_next (c : DBClientCursor) :
  (forall e : exception,
      fst (next c) = Thrown e ->
      nextSafe JSObj Element firstElement fieldName next c
      = (Thrown e, snd (next c))) /\
  (forall o : JSObj,
      fst (next c) = Value o ->
      c_str (fieldName (firstElement o)) = "$err" ->
      nextSafe JSObj Element firstElement fieldName next c
      = (Thrown AssertionException, snd (next c))).
Proof.
  unfold nextSafe, bind, assert, end_of_body, ret, throw.
  destruct (next c) as [[o|e] c']; cbn [fst snd].
  - split; [discriminate|].
    intros o' Ho Herr. injection Ho as <-.
    assert (strcmp (fieldName (firstElement o)) "$err" = 0) as ->
      by (apply strcmp_zero_iff; exact Herr).
    reflexivity.
  - split; [|discriminate].
    intros e' He. injection He as <-. reflexivity.
Qed.
End NextSafeFacts.

Section NextSafeRuns.
Import Libc Client Samples.

Lemma nextSafe_follows_next_witness :
  nextSafe doc (string * string) doc_firstElement doc_fieldName
    (next_gives remote_error) cursor0
  = (Thrown AssertionException, snd (next_gives remote_error cursor0)) /\
  nextSafe doc (string * string) doc_firstElement doc_fieldName
    (throw (UserAssertion "no master found")) cursor0
  = (Thrown (UserAssertion "no master found"),
     snd (throw (A := doc) (UserAssertion "no master found") cursor0)).
Proof.
  split.
  - exact (proj2 (nextSafe_follows_next doc (string * string)
                    doc_firstElement doc_fieldName
                    (next_gives remote_error) cursor0)
                 remote_error eq_refl eq_refl).
  - exact (proj1 (nextSafe_follows_next doc (string * string)
                    doc_firstElement doc_fieldName
                    (throw (UserAssertion "no master found")) cursor0)
                 (UserAssertion "no master found") eq_refl).
Defined.
End NextSafeRuns.

Section UdpFacts.
Import Libc Sock Udp Samples.

(** X15: [init] answers true exactly when [socket] gives a descriptor
    and [bind] succeeds; [getsockopt] has no say.  On success the
    connection holds the descriptor and nothing was closed; on failure
    it holds [INVALID_SOCKET] or 0.  The first call is [socket] for the
    endpoint's family, and [bind] is handed the struct and size the
    endpoint selects. *)
Theorem init_succeeds_iff (os : answers) (myAddr : SockAddr)
    (c : UDPConnection) :
  let '(ok, c', tr) := init os myAddr c in
  (ok = true <->
   socket_result os <> INVALID_SOCKET /\ bind_result os = 0) /\
  (ok = true -> sock c' = socket_result os /\ closed tr = []) /\
  (ok = false -> sock c' = INVALID_SOCKET \/ sock c' = 0) /\
  hd_error tr = Some (call_socket (family myAddr) SOCK_DGRAM IPPROTO_UDP) /\
  (socket_result os <> INVALID_SOCKET ->
   nth_error tr 1
   = Some (call_bind (socket_result os) (getSockAddr myAddr)
                     (addressSize myAddr))).
Proof.
  unfold init.
  destruct (Z.eqb_spec (socket_result os) INVALID_SOCKET) as [Es|Ns];
    [|destruct (Z.eqb_spec (bind_result os) 0) as [Eb|Nb]; cbn [negb];
      [destruct (negb (getsockopt_result os =? -1))|]];
    repeat split; cbn [sock]; intros;
    try discriminate; try reflexivity; try tauto; auto.
Qed.

(** X16: over the life of a connection that is initialised once and
    destroyed, [close] is called exactly once, on what [socket]
    returned (on [INVALID_SOCKET] when [socket] failed), never twice;
    the one exception is a descriptor 0 that was bound with success,
    which the destructor takes for no socket and never closes.  The
    connection ends with [sock] 0. *)
Theorem lifetime_closes_once (os : answers) (myAddr : SockAddr) :
  let '(ok, c, tr) := lifetime os myAddr in
  sock c = 0 /\
  closed tr = (if ok && (socket_result os =? 0) then []
               else [socket_result os]).
Proof.
  unfold lifetime, init, UDPConnection_delete, UDPConnection_new.
  destruct (Z.eqb_spec (socket_result os) INVALID_SOCKET) as [Es|Ns].
  - cbn [sock]. rewrite Es. split; reflexivity.
  - destruct (Z.eqb_spec (bind_result os) 0) as [Eb|Nb]; cbn [negb].
    + destruct (negb (getsockopt_result os =? -1)); cbn [sock];
        destruct (Z.eqb_spec (socket_result os) 0) as [E0|N0];
        cbn [negb sock andb]; rewrite ?E0; split; reflexivity.
    + cbn [sock]. cbn. split; reflexivity.
Qed.

(** X17: [init] never closes a descriptor the connection already
    holds: whatever [sock] was, the only descriptor [init] may close is
    the one [socket] just returned, and afterwards [sock] is that
    descriptor or 0, so the one held before is lost. *)
Theorem init_drops_held_descriptor (os : answers) (myAddr : SockAddr)
    (c : UDPConnection) :
  let '(ok, c', tr) := init os myAddr c in
  (forall fd : Z, In fd (closed tr) -> fd = socket_result os) /\
  (sock c' = socket_result os \/ sock c' = 0).
Proof.
  unfold init.
  destruct (Z.eqb_spec (socket_result os) INVALID_SOCKET) as [Es|Ns].
  - split; [intros fd []|left; reflexivity].
  - destruct (Z.eqb_spec (bind_result os) 0) as [Eb|Nb]; cbn [negb].
    + destruct (negb (getsockopt_result os =? -1));
        (split; [intros fd []|left; reflexivity]).
    + split; [|right; reflexivity].
      intros fd [H|[]]. now symmetry.
Qed.
End UdpFacts.

(** ** Runs of the theorems above *)
Section Runs.
Import Libc Sock Udp Client Samples.

Lemma tailable_under_option_changes_witness :
  fst (tailable (cursor_with 6)) = Value true /\
  fst (tailable (cursor_with 6)) = fst (tailable (cursor_with 2)) /\
  fst (tailable (cursor_with 2)) = fst (tailable (cursor_with 10)) /\
  fst (tailable (cursor_with 4)) = Value false.
Proof.
  split; [|split; [|split]].
  - exact (proj1 (proj2 (proj2
      (tailable_under_option_changes (cursor_with 4) (cursor_with 6))))
      eq_refl).
  - exact (proj1 (proj2 (proj2 (proj2
      (tailable_under_option_changes (cursor_with 2) (cursor_with 6)))))
      eq_refl).
  - exact (proj1 (proj2 (proj2 (proj2 (proj2
      (tailable_under_option_changes (cursor_with 10) (cursor_with 2))))))
      eq_refl).
  - exact (proj2 (proj2 (proj2 (proj2 (proj2
      (tailable_under_option_changes (cursor_with 6) (cursor_with 4))))))
      eq_refl).
Defined.

Lemma init_succeeds_iff_witness :
  (sock (snd (fst (init os_ok (endpoint "10.0.0.1" 27017) UDPConnection_new)))
   = socket_result os_ok /\
   closed (snd (init os_ok (endpoint "10.0.0.1" 27017) UDPConnection_new))
   = []) /\
  (sock (snd (fst (init os_bind_fails (endpoint "10.0.0.1" 27017)
                        UDPConnection_new))) = INVALID_SOCKET \/
   sock (snd (fst (init os_bind_fails (endpoint "10.0.0.1" 27017)
                        UDPConnection_new))) = 0).
Proof.
  split.
  - exact (proj1 (proj2 (init_succeeds_iff os_ok (endpoint "10.0.0.1" 27017)
                           UDPConnection_new)) eq_refl).
  - exact (proj1 (proj2 (proj2 (init_succeeds_iff os_bind_fails
                           (endpoint "10.0.0.1" 27017) UDPConnection_new)))
                 eq_refl).
Defined.

Lemma init_drops_held_descriptor_witness :
  5 = socket_result os_bind_fails.
Proof.
  exact (proj1 (init_drops_held_descriptor os_bind_fails
                  (endpoint "10.0.0.1" 27017) {| sock := 3 |})
               5 (or_introl eq_refl)).
Defined.

Example init_runs :
  init os_ok (SockAddr_of_port mem0 27017) UDPConnection_new
  = (true, {| sock := 5 |},
     [call_socket AF_INET SOCK_DGRAM IPPROTO_UDP;
      call_bind 5 (sockaddr_in_at (si (SockAddr_of_port mem0 27017)))
                sizeof_sockaddr_in;
      call_getsockopt 5 SOL_SOCKET SO_RCVBUF;
      out [Str "SO_RCVBUF:"; Num 212992; Endl]]) /\
  snd (lifetime os_bind_fails (SockAddr_of_port mem0 27017))
  = [call_socket AF_INET SOCK_DGRAM IPPROTO_UDP;
     call_bind 5 (sockaddr_in_at (si (SockAddr_of_port mem0 27017)))
               sizeof_sockaddr_in;
     out [Str "udp init failed"; Endl];
     call_close 5] /\
  snd (lifetime os_socket_fails (SockAddr_of_port mem0 27017))
  = [call_socket AF_INET SOCK_DGRAM IPPROTO_UDP;
     out [Str "invalid socket? "; Num 24; Endl];
     call_close (-1)].
Proof. repeat split. Qed.

End Runs.

(** ** Ports beyond 16 bits, and the order of paths *)
Section PortsAndPaths.
Import Libc Sock Udp Samples.

Lemma htons_mod (x : Z) : htons (x mod 2 ^ 16) = htons x.
Proof.
  rewrite <- (ntohs_htons x). unfold ntohs.
  pose proof (ntohs_htons (htons x)) as H. unfold ntohs in H.
  rewrite H. apply Z.mod_small. apply htons_range.
Qed.

Lemma htons_eq_iff (x y : Z) :
  htons x = htons y <-> x mod 2 ^ 16 = y mod 2 ^ 16.
Proof.
  split; intro H.
  - rewrite <- (ntohs_htons x), <- (ntohs_htons y). now rewrite H.
  - rewrite <- (htons_mod x), <- (htons_mod y). now rewrite H.
Qed.

(** X18: equality of networked endpoints as built.  Two listener
    endpoints are equal exactly when their ports agree modulo 2^16; two
    endpoints built from hosts and ports other than 0 are equal exactly
    when the hosts resolve to the same address and the ports agree
    modulo 2^16; an endpoint built with a port other than 0 never equals
    one built with port 0, and the port 2^16 gives a networked endpoint
    with stored port 0, not a local-domain one. *)
Theorem operator_eq_networked_constructed
    (hostbyname : string -> string) (m m' : SockAddr) :
  (forall p p' : Z,
      operator_eq (SockAddr_of_port m p) (SockAddr_of_port m' p') = true
      <-> p mod 2 ^ 16 = p' mod 2 ^ 16) /\
  (forall (s s' : string) (p p' : Z),
      p <> 0 -> p' <> 0 ->
      (operator_eq (SockAddr_of_host hostbyname m s p)
                   (SockAddr_of_host hostbyname m' s' p') = true
       <-> inet_addr (hostbyname s) = inet_addr (hostbyname s') /\
           p mod 2 ^ 16 = p' mod 2 ^ 16)) /\
  (forall (s s' : string) (p : Z),
      p <> 0 ->
      operator_eq (SockAddr_of_host hostbyname m s p)
                  (SockAddr_of_host hostbyname m' s' 0) = false /\
      family (SockAddr_of_host hostbyname m s (2 ^ 16)) = AF_INET /\
      sin_port (si (SockAddr_of_host hostbyname m s (2 ^ 16))) = 0).
Proof.
  split; [|split].
  - intros p p'. unfold operator_eq.
    cbn [SockAddr_of_port family si sin_addr s_addr sin_port].
    change (negb (AF_INET =? AF_INET)) with false.
    change (AF_INET =? AF_UNIX) with false. cbv iota.
    rewrite Z.eqb_refl, andb_true_l, Z.eqb_eq. apply htons_eq_iff.
  - intros s s' p p' Hp Hp'. unfold SockAddr_of_host.
    apply Z.eqb_neq in Hp, Hp'. rewrite Hp, Hp'. unfold operator_eq.
    cbn [family si sin_addr s_addr sin_port].
    change (negb (AF_INET =? AF_INET)) with false.
    change (AF_INET =? AF_UNIX) with false. cbv iota.
    rewrite andb_true_iff, !Z.eqb_eq, htons_eq_iff. reflexivity.
  - intros s s' p Hp. unfold SockAddr_of_host.
    apply Z.eqb_neq in Hp. rewrite Hp. repeat split.
Qed.

Lemma operator_eq_networked_constructed_witness :
  (operator_eq (SockAddr_of_host resolve_ip mem0 "10.0.0.1" 80)
               (SockAddr_of_host resolve_ip mem1 "10.0.0.1" 65616) = true
   <-> inet_addr (resolve_ip "10.0.0.1") = inet_addr (resolve_ip "10.0.0.1")
       /\ 80 mod 2 ^ 16 = 65616 mod 2 ^ 16) /\
  operator_eq (SockAddr_of_host resolve_ip mem0 "10.0.0.1" 80)
              (SockAddr_of_host resolve_ip mem1 "10.0.0.1" 0) = false.
Proof.
  split.
  - apply (proj1 (proj2 (operator_eq_networked_constructed
                           resolve_ip mem0 mem1))
             "10.0.0.1" "10.0.0.1" 80 65616); lia.
  - apply (proj2 (proj2 (operator_eq_networked_constructed
                           resolve_ip mem0 mem1))
             "10.0.0.1" "10.0.0.1" 80). lia.
Defined.

Lemma uchar_compare (c d : ascii) :
  (uchar c - uchar d ?= 0) = Ascii.compare c d.
Proof.
  unfold Ascii.compare, uchar.
  rewrite <- Z.compare_sub, <- N2Z.inj_compare. reflexivity.
Qed.

Lemma compare_same_char (c : ascii) : Ascii.compare c c = Eq.
Proof. unfold Ascii.compare. apply N.compare_refl. Qed.

Lemma strcmp_compare (s t : string) :
  (strcmp s t ?= 0) = String.compare (c_str s) (c_str t).
Proof.
  revert t. induction s as [|c r IH]; intros [|d q]; cbn [strcmp c_str].
  - reflexivity.
  - destruct (Ascii.eqb_spec d NUL) as [->|Hd]; [reflexivity|].
    pose proof (uchar_pos d Hd). cbn [String.compare].
    apply Z.compare_lt_iff. lia.
  - destruct (Ascii.eqb_spec c NUL) as [->|Hc]; [reflexivity|].
    pose proof (uchar_pos c Hc). cbn [String.compare].
    apply Z.compare_gt_iff. lia.
  - destruct (Ascii.eqb_spec c d) as [<-|Hcd].
    + destruct (Ascii.eqb_spec c NUL) as [->|Hc]; [reflexivity|].
      cbn [String.compare]. rewrite compare_same_char. apply IH.
    + rewrite uchar_compare.
      destruct (Ascii.eqb_spec c NUL) as [->|Hc];
        destruct (Ascii.eqb_spec d NUL) as [->|Hd].
      * contradiction.
      * cbn [String.compare]. rewrite <- uchar_compare.
        pose proof (uchar_pos d Hd). change (uchar NUL) with 0.
        apply Z.compare_lt_iff. lia.
      * cbn [String.compare]. rewrite <- uchar_compare.
        pose proof (uchar_pos c Hc). change (uchar NUL) with 0.
        apply Z.compare_gt_iff. lia.
      * cbn [String.compare].
        destruct (Ascii.compare c d) eqn:E; try reflexivity.
        exfalso. apply Hcd. apply uchar_inj.
        rewrite <- uchar_compare in E. apply Z.compare_eq in E. lia.
Qed.

(** X19: local-domain endpoints whose [sun_path] arrays hold
    terminated strings are ordered as those paths are, byte by byte
    with bytes taken as unsigned and a prefix before its extensions:
    [a < b], [a == b] and [b < a] hold exactly when the lexicographic
    comparison of the two paths gives less, equal and greater. *)
Theorem local_endpoints_ordered_by_path (a b : SockAddr) :
  family a = AF_UNIX -> family b = AF_UNIX ->
  terminated (sun_path (su a)) -> terminated (sun_path (su b)) ->
  (operator_lt a b = true <-> String.compare (path a) (path b) = Lt) /\
  (operator_eq a b = true <-> String.compare (path a) (path b) = Eq) /\
  (operator_lt b a = true <-> String.compare (path a) (path b) = Gt).
Proof.
  intros Ha Hb _ _. unfold operator_lt, operator_eq, path. rewrite Ha, Hb.
  change (AF_UNIX <? AF_UNIX) with false.
  change (AF_UNIX >? AF_UNIX) with false.
  change (negb (AF_UNIX =? AF_UNIX)) with false.
  change (AF_UNIX =? AF_UNIX) with true. cbv iota.
  rewrite <- strcmp_compare.
  rewrite (strcmp_flip (sun_path (su a)) (sun_path (su b))).
  rewrite !Z.ltb_lt, Z.eqb_eq.
  rewrite Z.compare_lt_iff, Z.compare_eq_iff, Z.compare_gt_iff.
  repeat split; lia.
Qed.

Lemma local_endpoints_ordered_by_path_witness :
  (operator_lt (local_socket mem0 "/tmp/a") (local_socket mem1 "/tmp/b")
   = true
   <-> String.compare (path (local_socket mem0 "/tmp/a"))
                      (path (local_socket mem1 "/tmp/b")) = Lt) /\
  (operator_eq (local_socket mem0 "/tmp/a") (local_socket mem1 "/tmp/b")
   = true
   <-> String.compare (path (local_socket mem0 "/tmp/a"))
                      (path (local_socket mem1 "/tmp/b")) = Eq) /\
  (operator_lt (local_socket mem1 "/tmp/b") (local_socket mem0 "/tmp/a")
   = true
   <-> String.compare (path (local_socket mem0 "/tmp/a"))
                      (path (local_socket mem1 "/tmp/b")) = Gt).
Proof.
  exact (local_endpoints_ordered_by_path
           (local_socket mem0 "/tmp/a") (local_socket mem1 "/tmp/b")
           eq_refl eq_refl eq_refl eq_refl).
Defined.

Example path_order_runs :
  operator_lt (local_socket mem0 "/tmp/a") (local_socket mem0 "/tmp/ab")
  = true /\
  operator_lt (local_socket mem0 "/tmp/b") (local_socket mem0 "/tmp/ab")
  = false /\
  operator_lt (local_socket mem0 EmptyString) (local_socket mem0 "/") = true.
Proof. repeat split. Qed.

End PortsAndPaths.
